(** * reviewer.py: a pull-request reviewer, embedded and verified

    The program fetches the diff of a pull request, asks a chat model for a
    verdict, reads the verdict off the first words of the answer and posts an
    approving or a change-requesting review.

    The embedding is shallow.  Pure code ([extract_github_info], the string
    tests of [_push_review]) becomes Rocq functions; code that talks to the
    outside ([requests.get], [requests.post], [openai.ChatCompletion.create],
    [LOGGER], [time.sleep], [print]) runs in a small monad that records the
    calls it makes, in order, and ends in a returned value or in a raised
    Python exception. *)

From Stdlib Require Import ZArith NArith Ascii String List Bool Lia.
From stdpp Require Import base tactics option list strings pretty gmap.

Local Open Scope Z_scope.

(** ** Python strings

    A Python [str] is a sequence of code points.  It is modelled as a Rocq
    [string], each character standing for the code point of the same number,
    so the model covers the texts whose code points are all below 256.  On
    these, [str.lower] maps characters one by one, which is how [lower] is
    written. *)

Module PyStr.

Definition code (c : ascii) : N := N_of_ascii c.

(** [str.isspace] on one code point, as [str.strip] uses it: TAB to CR, the
    separators FS to US, the space, NEL and the no-break space. *)
Definition isspace (c : ascii) : bool :=
  let n := code c in
  ((9 <=? n) && (n <=? 13) || (28 <=? n) && (n <=? 32)
   || (n =? 133) || (n =? 160))%N.

(** [str.lower] on one code point: A to Z and the capital letters of the
    Latin-1 block (all of C0 to DE but the multiplication sign D7). *)
Definition lower_char (c : ascii) : ascii :=
  let n := code c in
  if ((65 <=? n) && (n <=? 90)
      || (192 <=? n) && (n <=? 222) && negb (n =? 215))%N
  then ascii_of_N (n + 32) else c.

Fixpoint lower (s : string) : string :=
  match s with
  | EmptyString => EmptyString
  | String c r => String (lower_char c) (lower r)
  end.

Fixpoint lstrip (s : string) : string :=
  match s with
  | EmptyString => EmptyString
  | String c r => if isspace c then lstrip r else s
  end.

Fixpoint rstrip (s : string) : string :=
  match s with
  | EmptyString => EmptyString
  | String c r =>
      match rstrip r with
      | EmptyString => if isspace c then EmptyString else String c EmptyString
      | r' => String c r'
      end
  end.

(** [s.strip()] *)
Definition strip (s : string) : string := rstrip (lstrip s).

(** [s.startswith(p)] *)
Fixpoint startswith (s p : string) {struct p} : bool :=
  match p, s with
  | EmptyString, _ => true
  | String a p', String b s' => if Ascii.eqb a b then startswith s' p' else false
  | String _ _, EmptyString => false
  end.

(** [len(s)] *)
Definition len (s : string) : nat := String.length s.

(** [s[n:]] for [n >= 0] *)
Fixpoint slice_from (n : nat) (s : string) : string :=
  match n, s with
  | O, _ => s
  | S n', String _ r => slice_from n' r
  | S _, EmptyString => EmptyString
  end.

(** Every character of [s] satisfies [p]. *)
Fixpoint all (p : ascii -> bool) (s : string) : bool :=
  match s with
  | EmptyString => true
  | String c r => p c && all p r
  end.

(** The first character of [s], if any, satisfies [p]. *)
Definition head_is (p : ascii -> bool) (s : string) : bool :=
  match s with
  | EmptyString => false
  | String c _ => p c
  end.

(** The last character of [s], if any, satisfies [p]. *)
Fixpoint last_is (p : ascii -> bool) (s : string) : bool :=
  match s with
  | EmptyString => false
  | String c EmptyString => p c
  | String _ r => last_is p r
  end.

(** The longest prefix of [s] whose characters satisfy [p], and the rest:
    what a greedy character-class repetition consumes. *)
Fixpoint span (p : ascii -> bool) (s : string) : string * string :=
  match s with
  | EmptyString => (EmptyString, EmptyString)
  | String c r =>
      if p c then let '(a, b) := span p r in (String c a, b)
      else (EmptyString, s)
  end.

(** [Some r] when [s = p ++ r]: a literal at the head of [s]. *)
Fixpoint expect (p s : string) : option string :=
  match p, s with
  | EmptyString, _ => Some s
  | String a p', String b s' => if Ascii.eqb a b then expect p' s' else None
  | String _ _, EmptyString => None
  end.

End PyStr.

(** ** Exceptions, effects and the world outside *)

(** The exception classes of [openai.error] that the retry loop tells apart.
    The three named classes are siblings under [OpenAIError]; [OtherError]
    stands for every other class of that hierarchy. *)
Inductive openai_error_class := RateLimitError | APIError | Timeout | OtherError.

(** An [OpenAIError] instance: its class and its [http_status] attribute,
    [None] when the error carries no HTTP status. *)
Record openai_error := {
  err_class : openai_error_class;
  http_status : option Z
}.

Inductive exn :=
| ValueError (msg : string)
| TypeError (msg : string)
| AttributeError (msg : string)
| IndexError (msg : string)
| KeyError (key : string)
| OpenAIError (e : openai_error)
| RequestException (msg : string).

Inductive result (A : Type) : Type :=
| Return (a : A)
| Raise (e : exn).
Arguments Return {A} a.
Arguments Raise {A} e.

Record http_response := { status_code : Z; text : string }.

(** The arguments of one [requests.post] call. *)
Record post_request := {
  post_url : string;
  post_data : string;
  post_headers : list (string * string)
}.

(** A chat message, the dict [{"role": ..., "content": ...}]. *)
Record chat_message := { role : string; content : string }.

(** The keyword arguments of one [openai.ChatCompletion.create] call. *)
Record chat_request := {
  req_model : option string;
  req_messages : list chat_message;
  req_temperature : Z;
  req_max_tokens : option Z;
  req_api_key : option string
}.

(** What the chat endpoint answers: [response.choices[i].message] is a
    dict indexed by strings. *)
Record choice := { message : gmap string string }.
Record chat_response := { choices : list choice }.

Inductive log_level := DEBUG | INFO | ERROR.

(** What the program does to the outside, in the order it does it. *)
Inductive event :=
| HttpGet (url : string)
| HttpPost (req : post_request)
| ChatCreate (req : chat_request)
| Log (lvl : log_level) (msg : string) (args : list string)
| Sleep (secs : Z)
| Print (line : string).

(** The outside as the program sees it.  [ChatCompletion_create k] is the
    outcome of the call made at attempt [k] of one [create_chat_completion]:
    a stub that fails twice and then succeeds raises at 0 and 1 and returns
    from 2 on. *)
Record world := {
  requests_get : string -> result http_response;
  requests_post : post_request -> result http_response;
  ChatCompletion_create : nat -> chat_request -> result chat_response;
  os_getenv : string -> option string
}.

(** A computation: the events it emitted and how it ended. *)
Definition M (A : Type) : Type := (list event * result A)%type.

#[global] Instance M_ret : MRet M := fun A a => ([], Return a).
#[global] Instance M_bind : MBind M := fun A B f m =>
  match m with
  | (t, Return a) => let '(t', r) := f a in (t ++ t', r)
  | (t, Raise e) => (t, Raise e)
  end.

Definition raise {A} (e : exn) : M A := ([], Raise e).
Definition emit (ev : event) : M unit := ([ev], Return tt).
(** An outside call: the event, then the outcome the world gives. *)
Definition call {A} (ev : event) (r : result A) : M A := ([ev], r).
Definition lift {A} (r : result A) : M A := ([], r).

Definition trace {A} (m : M A) : list event := fst m.
Definition outcome {A} (m : M A) : result A := snd m.

(** [for x in l: st = body st x], stopping at the first exception. *)
Fixpoint for_each {S : Type} (body : S -> nat -> M S) (l : list nat) (st : S) : M S :=
  match l with
  | [] => mret st
  | x :: l' => st' ← body st x; for_each body l' st'
  end.

(** ** Formatting *)

Definition dq : string := String "034"%char EmptyString.
Definition bs : string := String "092"%char EmptyString.
Definition nl : string := String "010"%char EmptyString.

(** [str(x)] for an integer *)
Definition str_int (z : Z) : string := pretty z.

(** [f"{x}"] for an optional value: [None] prints as its name. *)
Definition str_opt {A} (f : A -> string) (o : option A) : string :=
  match o with Some a => f a | None => "None" end.

Definition hex_digit (n : N) : ascii :=
  match n with
  | 0 => "0" | 1 => "1" | 2 => "2" | 3 => "3" | 4 => "4" | 5 => "5"
  | 6 => "6" | 7 => "7" | 8 => "8" | 9 => "9" | 10 => "a" | 11 => "b"
  | 12 => "c" | 13 => "d" | 14 => "e" | _ => "f"
  end%char%N.

(** One character of a JSON string as [json.dumps] writes it with its default
    [ensure_ascii=True]: the quote and the backslash are escaped, the usual
    control characters have their letter, and every other character outside
    the printable range space to tilde becomes a four-digit hexadecimal
    escape. *)
Definition json_escape_char (c : ascii) : string :=
  let n := PyStr.code c in
  if (n =? 34)%N then bs +:+ dq
  else if (n =? 92)%N then bs +:+ bs
  else if (n =? 8)%N then bs +:+ "b"
  else if (n =? 12)%N then bs +:+ "f"
  else if (n =? 10)%N then bs +:+ "n"
  else if (n =? 13)%N then bs +:+ "r"
  else if (n =? 9)%N then bs +:+ "t"
  else if ((32 <=? n) && (n <=? 126))%N then String c EmptyString
  else bs +:+ "u00" +:+ String (hex_digit (n / 16)) (String (hex_digit (n mod 16)) EmptyString).

Fixpoint json_escape (s : string) : string :=
  match s with
  | EmptyString => EmptyString
  | String c r => json_escape_char c +:+ json_escape r
  end.

Definition json_str (s : string) : string := dq +:+ json_escape s +:+ dq.

(** [json.dumps(d)] for a dict [d] of strings, keys in insertion order, with
    the default separators. *)
Definition json_dumps (d : list (string * string)) : string :=
  "{" +:+ String.concat ", " (map (fun kv => json_str kv.1 +:+ ": " +:+ json_str kv.2) d) +:+ "}".

(** ** [extract_github_info] *)

Definition is_digit (c : ascii) : bool :=
  let n := PyStr.code c in ((48 <=? n) && (n <=? 57))%N.
Definition not_slash (c : ascii) : bool := negb (PyStr.code c =? 47)%N.
Definition not_newline (c : ascii) : bool := negb (PyStr.code c =? 10)%N.

(** The number a string of decimal digits denotes.  Python integers are
    unbounded, as [Z] is. *)
Definition int_of_digits (s : string) : Z :=
  fold_left (fun acc c => 10 * acc + (Z.of_N (PyStr.code c) - 48))
            (list_ascii_of_string s) 0.

(** [sys.get_int_max_str_digits()], at its default. *)
Definition int_max_str_digits : Z := 4300.

(** [int(s)] for a string of decimal digits, as CPython converts since 3.11:
    a string of more digits than the limit is refused with a [ValueError],
    leading zeros counted. *)
Definition py_int (s : string) : result Z :=
  if decide (int_max_str_digits < Z.of_nat (PyStr.len s)) then
    Raise (ValueError ("Exceeds the limit (" +:+ str_int int_max_str_digits
      +:+ " digits) for integer string conversion: value has "
      +:+ str_int (Z.of_nat (PyStr.len s))
      +:+ " digits; use sys.set_int_max_str_digits() to increase the limit"))
  else Return (int_of_digits s).

(** The regular-expression dot at the head of [s]: one character, any but a
    newline. *)
Definition dot (s : string) : option string :=
  match s with
  | String c r => if not_newline c then Some r else None
  | EmptyString => None
  end.

(** [re.match(pattern, url)] for the pattern of [extract_github_info],
    [https://github.com/([^/]+)/([^/]+)/pull/(\d+)]: the three groups of the
    match, or [None].  [re.match] anchors the pattern at the start of [url]
    only; the dot of [github.com] is the regular-expression dot, any
    character but a newline.  Each greedy class repetition is followed in
    the pattern by a literal outside its class, or by the end of the pattern,
    so no shorter repetition can lead to a match and the matcher never has to
    backtrack: it consumes the longest run, here [PyStr.span]. *)
Definition re_match_pr (url : string) : option (string * string * string) :=
  s ← PyStr.expect "https://github" url;
  s ← dot s;
  s ← PyStr.expect "com/" s;
  let '(owner, s) := PyStr.span not_slash s in
  if decide (owner = "") then None else
  s ← PyStr.expect "/" s;
  let '(repo, s) := PyStr.span not_slash s in
  if decide (repo = "") then None else
  s ← PyStr.expect "/pull/" s;
  let '(pull_id, _) := PyStr.span is_digit s in
  if decide (pull_id = "") then None else
  Some (owner, repo, pull_id).

(** The URL of pull request [d] of repository [o]/[r]. *)
Definition pr_url (o r d : string) : string :=
  "https://github.com/" +:+ o +:+ "/" +:+ r +:+ "/pull/" +:+ d.

(** A path segment: not empty, no slash. *)
Definition segment (s : string) : Prop :=
  s <> "" /\ PyStr.all not_slash s = true.

(** A number: not empty, decimal digits only. *)
Definition digits (s : string) : Prop :=
  s <> "" /\ PyStr.all is_digit s = true.


(** The dict that [extract_github_info] returns. *)
Record github_info := { owner : string; repo : string; pull_id : Z }.

(** The reference, [None] when the pattern does not match, or the exception
    of the integer conversion. *)
Definition extract_github_info (url : string) : result (option github_info) :=
  match re_match_pr url with
  | Some (owner, repo, pull_id) =>
      match py_int pull_id with
      | Return n => Return (Some {| owner := owner; repo := repo; pull_id := n |})
      | Raise x => Raise x
      end
  | None => Return None
  end.

(** ** [_push_review] *)

(** Lines 103 to 114 of [_push_review]: the verdict read off the review text,
    as the pair [(accepted, tail_of_review)], or the [ValueError]. *)
Definition parse_verdict (review : string) : result (bool * string) :=
  let review := PyStr.strip review in
  if PyStr.startswith (PyStr.lower review) "acceptable" then
    Return (true, PyStr.slice_from (PyStr.len "acceptable") review)
  else if PyStr.startswith (PyStr.lower review) "request changes" then
    Return (false, PyStr.slice_from (PyStr.len "request changes") review)
  else
    Raise (ValueError ("Invalid response: " +:+ review
      +:+ ". It must start with either 'acceptable' or 'request changes'")).

Definition invalid_status (response : http_response) : exn :=
  ValueError ("Invalid response status: " +:+ str_int (status_code response)
    +:+ ". Response text is: " +:+ text response +:+ " ").

Definition _push_review (w : world) (review pr_link : string) : M unit :=
  info ← lift (extract_github_info pr_link);
  '(accepted, tail_of_review) ← lift (parse_verdict review);
  let body := [("event", if accepted : bool then "APPROVE" else "REQUEST_CHANGES");
               ("body", tail_of_review)] in
  url ← match info with
        | Some info =>
            mret ("https://api.github.com/repos/" +:+ owner info +:+ "/" +:+ repo info
                  +:+ "/pulls/" +:+ str_int (pull_id info) +:+ "/reviews")
        | None => raise (TypeError "'NoneType' object is not subscriptable")
        end;
  let req := {|
    post_url := url;
    post_data := json_dumps body;
    post_headers := [
      ("Authorization", "Bearer " +:+ str_opt id (os_getenv w "GITHUB_REVIEWER_TOKEN"));
      ("Cookie", "logged_in=no");
      ("Content-Type", "application/json");
      ("X-GitHub-Api-Version", "2022-11-28");
      ("Accept", "application/vnd.github.html+json");
      ("Accept-Encoding", "gzip, deflate, br")]
  |} in
  response ← call (HttpPost req) (requests_post w req);
  if decide (status_code response ≠ 200) then raise (invalid_status response)
  else mret tt.

(** ** [create_chat_completion] *)

(** The variables the retry loop updates. *)
Record loop_state := { response : option chat_response; warned_user : bool }.

Definition num_retries : nat := 10.

Definition backoff (attempt : nat) : Z := 2 ^ (Z.of_nat attempt + 2).

Definition rate_limit_warning : string :=
  "Please double check that you have setup a PAID OpenAI API Account. "
  +:+ "You can read more here: https://docs.agpt.co/setup/#getting-an-api-key".

(** The [try] statement of one iteration: the call and its handlers. *)
Definition attempt_call (w : world) (req : chat_request) (st : loop_state)
    (attempt : nat) : M loop_state :=
  emit (ChatCreate req);;
  match ChatCompletion_create w attempt req with
  | Return r => mret {| response := Some r; warned_user := warned_user st |}
  | Raise (OpenAIError e) =>
      match err_class e with
      | RateLimitError =>
          emit (Log DEBUG "Error: " ["Reached rate limit, passing..."]);;
          if warned_user st then mret st
          else
            emit (Log INFO rate_limit_warning []);;
            mret {| response := response st; warned_user := true |}
      | APIError | Timeout =>
          if decide (http_status e ≠ Some 502) then raise (OpenAIError e)
          else if decide (attempt = (num_retries - 1)%nat) then raise (OpenAIError e)
          else mret st
      | OtherError => raise (OpenAIError e)
      end
  | Raise x => raise x
  end.

(** The body of [for attempt in range(num_retries)]. *)
Definition attempt_body (w : world) (req : chat_request) (st : loop_state)
    (attempt : nat) : M loop_state :=
  let backoff := backoff attempt in
  st' ← attempt_call w req st attempt;
  emit (Log DEBUG "Error: "
          ["API Bad gateway. Waiting " +:+ str_int backoff +:+ " seconds..."]);;
  emit (Sleep backoff);;
  mret st'.

(** Lines 179 to 208: the loop, from the initial values of its variables. *)
Definition loop_init : loop_state := {| response := None; warned_user := false |}.

Definition retry_loop (w : world) (req : chat_request) : M loop_state :=
  for_each (attempt_body w req) (seq 0 num_retries) loop_init.

(** Lines 209 to 216: what follows the loop. *)
Definition first_content (st : loop_state) : M string :=
  (if response st is None then
     emit (Log ERROR "FAILED TO GET RESPONSE FROM OPENAI"
       ["Auto-GPT has failed to get a response from OpenAI's services. "
        +:+ "Try running Auto-GPT again, and if the problem the persists try running it with `--debug`."])
   else mret tt);;
  match response st with
  | None => raise (AttributeError "'NoneType' object has no attribute 'choices'")
  | Some r =>
      match choices r with
      | [] => raise (IndexError "list index out of range")
      | c :: _ =>
          match message c !! "content" with
          | Some resp => mret resp
          | None => raise (KeyError "content")
          end
      end
  end.

(** The keyword arguments that every attempt of one call passes. *)
Definition chat_request_of (w : world) (messages : list chat_message)
    (model : option string) (temperature : Z) (max_tokens : option Z)
    : chat_request :=
  {| req_model := model; req_messages := messages;
     req_temperature := temperature; req_max_tokens := max_tokens;
     req_api_key := os_getenv w "OPENAI_API_KEY" |}.

(** [if temperature is None: temperature = 0] *)
Definition default_temperature (temperature : option Z) : Z :=
  match temperature with None => 0 | Some t => t end.

(** The line logged before the loop. *)
Definition opening_log (model : option string) (temperature : Z)
    (max_tokens : option Z) : event :=
  Log DEBUG ("Creating chat completion with model " +:+ str_opt id model
     +:+ ", temperature " +:+ str_int temperature
     +:+ ", max_tokens " +:+ str_opt str_int max_tokens) [].

Definition create_chat_completion (w : world) (messages : list chat_message)
    (model : option string) (temperature : option Z) (max_tokens : option Z)
    : M string :=
  let temperature := default_temperature temperature in
  emit (opening_log model temperature max_tokens);;
  st ← retry_loop w (chat_request_of w messages model temperature max_tokens);
  first_content st.

(** ** [_process_diff] and [review_pr] *)

Definition system_prompt : string :=
  String.concat nl [
    "";
    "Instructions:";
    "You are a github diff reviewer. Below is are the contribution guidelines for a project you are doing reviews for.";
    "";
    "The user is going to provide you with a diff to review. Your job is to determine if the diff is acceptable or not. You have very high standards for accepting a diff.";
    "";
    "If the diff is acceptable, respond with " +:+ dq +:+ "Acceptable" +:+ dq
      +:+ ". If the diff is not acceptable, respond with " +:+ dq +:+ "Request Changes" +:+ dq
      +:+ " and explain the needed changes. ";
    "";
    "Below are guidelines for acceptable PRs.";
    "";
    "- Your pull request should be atomic and focus on a single change.";
    "- Your pull request should include tests for your change. We automatically enforce this with [CodeCov](https://docs.codecov.com/docs/commit-status)";
    "- You should have thoroughly tested your changes with multiple different prompts.";
    "- You should have considered potential risks and mitigations for your changes.";
    "- You should have documented your changes clearly and comprehensively.";
    "- You should not include any unrelated or " +:+ dq +:+ "extra" +:+ dq +:+ " small tweaks or changes.";
    "    "
  ].

Definition _process_diff (w : world) (diff : string) : M string :=
  let model := "gpt-4" in
  let messages := [
    {| role := "system"; content := system_prompt |};
    {| role := "user"; content := diff |}
  ] in
  create_chat_completion w messages (Some model) (Some 0) None.

Definition review_pr (w : world) (pr_link : string) : M string :=
  let diff_link := pr_link +:+ ".diff" in
  response ← call (HttpGet diff_link) (requests_get w diff_link);
  if decide (status_code response ≠ 200) then raise (invalid_status response)
  else
    let diff := text response in
    llm_response ← _process_diff w diff;
    emit (Print ("diff response: " +:+ llm_response));;
    _push_review w llm_response pr_link;;
    mret "Successfully reviewed PR.".

(** ** Observations on a trace *)

(** The calls to the chat endpoint and the sleeps of a trace, in order,
    everything else dropped. *)
Inductive beat := Attempt | Pause (secs : Z).

Definition beat_of (ev : event) : option beat :=
  match ev with
  | ChatCreate _ => Some Attempt
  | Sleep d => Some (Pause d)
  | _ => None
  end.
Definition beats (tr : list event) : list beat := omap beat_of tr.

Definition is_attempt (b : beat) : bool :=
  match b with Attempt => true | Pause _ => false end.
Definition pause_of (b : beat) : option Z :=
  match b with Attempt => None | Pause d => Some d end.

(** How many times the chat endpoint was called. *)
Definition chat_calls (tr : list event) : nat :=
  length (List.filter is_attempt (beats tr)).
(** The durations slept, in order. *)
Definition sleeps (tr : list event) : list Z := omap pause_of (beats tr).

Definition is_warning (ev : event) : bool :=
  match ev with Log INFO _ _ => true | _ => false end.
(** How many times the user-facing warning was logged. *)
Definition warnings (tr : list event) : nat := length (List.filter is_warning tr).

(** One attempt followed by its sleep. *)
Definition round (attempt : nat) : list beat := [Attempt; Pause (backoff attempt)].
(** The first [n] attempts, each followed by its sleep. *)
Definition rounds (n : nat) : list beat := flat_map round (seq 0 n).

(** Every sleep of the beats is followed, later on, by an attempt. *)
Fixpoint pauses_precede_attempts (bs : list beat) : bool :=
  match bs with
  | [] => true
  | Pause _ :: r => existsb is_attempt r && pauses_precede_attempts r
  | Attempt :: r => pauses_precede_attempts r
  end.

(** ** Outcomes of one attempt, classified *)

Definition is_rate_limit (o : result chat_response) : bool :=
  match o with
  | Raise (OpenAIError e) =>
      match err_class e with RateLimitError => true | _ => false end
  | _ => false
  end.

(** An [APIError] or a [Timeout] whose [http_status] is 502. *)
Definition is_bad_gateway (o : result chat_response) : bool :=
  match o with
  | Raise (OpenAIError e) =>
      match err_class e with
      | APIError | Timeout => bool_decide (http_status e = Some 502)
      | _ => false
      end
  | _ => false
  end.

Definition is_answer (o : result chat_response) : bool :=
  match o with Return _ => true | Raise _ => false end.

(** The outcomes after which an attempt that is not the last one goes on to
    its sleep. *)
Definition survives (o : result chat_response) : bool :=
  is_answer o || is_rate_limit o || is_bad_gateway o.

(** The outcomes after which attempt number [attempt] goes on to its sleep. *)
Definition continues (attempt : nat) (o : result chat_response) : bool :=
  is_answer o || is_rate_limit o
  || is_bad_gateway o && negb (bool_decide (attempt = (num_retries - 1)%nat)).

(** The loop variables after an attempt that went on. *)
Definition absorb (st : loop_state) (o : result chat_response) : loop_state :=
  match o with
  | Return r => {| response := Some r; warned_user := warned_user st |}
  | Raise _ =>
      if is_rate_limit o then {| response := response st; warned_user := true |}
      else st
  end.

(** The loop variables after the attempts of [l], all of which went on. *)
Definition absorb_all (stub : nat -> result chat_response) (l : list nat)
    (st : loop_state) : loop_state :=
  fold_left (fun s k => absorb s (stub k)) l st.

(** Some attempt of [l] was rate-limited. *)
Definition any_rate_limit (stub : nat -> result chat_response) (l : list nat) : bool :=
  existsb (fun k => is_rate_limit (stub k)) l.

(** How many warnings the attempts of [l] log when they all go on: one, if
    the user was not warned before and some attempt is rate-limited. *)
Definition warned_once (stub : nat -> result chat_response) (l : list nat)
    (st : loop_state) : nat :=
  if any_rate_limit stub l && negb (warned_user st) then 1%nat else 0%nat.

(** ** Test worlds *)

Definition ok_response (s : string) : chat_response :=
  {| choices := [ {| message := {[ "role" := "assistant"; "content" := s ]} |} ] |}.

Definition api_error (status : option Z) : openai_error :=
  {| err_class := APIError; http_status := status |}.
Definition timeout_error (status : option Z) : openai_error :=
  {| err_class := Timeout; http_status := status |}.
Definition rate_limit_error : openai_error :=
  {| err_class := RateLimitError; http_status := Some 429 |}.

(** A world whose chat endpoint is the given stub, whose diff fetch gives
    [diff] and whose review post succeeds. *)
Definition stub_world (diff : http_response)
    (chat : nat -> result chat_response) : world := {|
  requests_get := fun _ => Return diff;
  requests_post := fun _ => Return {| status_code := 200; text := "{}" |};
  ChatCompletion_create := fun k _ => chat k;
  os_getenv := fun _ => None
|}.

Definition diff_ok : http_response := {| status_code := 200; text := "+ x" |}.

Definition always (o : result chat_response) : nat -> result chat_response :=
  fun _ => o.
(** Fails with [e] on the first [n] calls, then answers [s] every time. *)
Definition fail_then_ok (n : nat) (e : exn) (s : string) : nat -> result chat_response :=
  fun k => if decide (k < n)%nat then Raise e else Return (ok_response s).

(** Gives the outcomes of [l] in turn, then [rest] every time. *)
Definition script (l : list (result chat_response)) (rest : result chat_response)
    : nat -> result chat_response :=
  fun k => nth k l rest.

Definition run_chat (chat : nat -> result chat_response) : M string :=
  create_chat_completion (stub_world diff_ok chat) [] (Some "gpt-4") None None.

(** ** More observations on a trace *)

Definition request_sent (ev : event) : option chat_request :=
  match ev with ChatCreate r => Some r | _ => None end.
Definition post_sent (ev : event) : option post_request :=
  match ev with HttpPost r => Some r | _ => None end.
Definition url_fetched (ev : event) : option string :=
  match ev with HttpGet u => Some u | _ => None end.
Definition line_printed (ev : event) : option string :=
  match ev with Print l => Some l | _ => None end.

(** The requests sent to the chat endpoint, in order. *)
Definition chat_requests (tr : list event) : list chat_request := omap request_sent tr.
(** The reviews posted, in order. *)
Definition posts (tr : list event) : list post_request := omap post_sent tr.
(** The addresses fetched, in order. *)
Definition gets (tr : list event) : list string := omap url_fetched tr.
(** The lines printed, in order. *)
Definition prints (tr : list event) : list string := omap line_printed tr.

(** The seconds slept in all. *)
Definition total_sleep (tr : list event) : Z := foldr Z.add 0 (sleeps tr).

(** The events [create_chat_completion] can emit. *)
Definition is_client_event (ev : event) : bool :=
  match ev with
  | ChatCreate _ | Log _ _ _ | Sleep _ => true
  | HttpGet _ | HttpPost _ | Print _ => false
  end.

(** The request that [_process_diff] has every attempt send for [diff]. *)
Definition review_request (w : world) (diff : string) : chat_request :=
  {| req_model := Some "gpt-4";
     req_messages := [ {| role := "system"; content := system_prompt |};
                       {| role := "user"; content := diff |} ];
     req_temperature := 0;
     req_max_tokens := None;
     req_api_key := os_getenv w "OPENAI_API_KEY" |}.

(** The headers of every review posted. *)
Definition review_headers (w : world) : list (string * string) :=
  [ ("Authorization", "Bearer " +:+ str_opt id (os_getenv w "GITHUB_REVIEWER_TOKEN"));
    ("Cookie", "logged_in=no");
    ("Content-Type", "application/json");
    ("X-GitHub-Api-Version", "2022-11-28");
    ("Accept", "application/vnd.github.html+json");
    ("Accept-Encoding", "gzip, deflate, br") ].

(** The address a review of [info] is posted to. *)
Definition reviews_url (info : github_info) : string :=
  "https://api.github.com/repos/" +:+ owner info +:+ "/" +:+ repo info
  +:+ "/pulls/" +:+ str_int (pull_id info) +:+ "/reviews".

(** The request [_push_review] posts for a verdict and a reference. *)
Definition review_post (w : world) (accepted : bool) (tail : string)
    (info : github_info) : post_request :=
  {| post_url := reviews_url info;
     post_data := json_dumps [("event", if accepted then "APPROVE" else "REQUEST_CHANGES");
                              ("body", tail)];
     post_headers := review_headers w |}.

(** A printable ASCII character, space to tilde. *)
Definition printable (c : ascii) : bool :=
  let n := PyStr.code c in ((32 <=? n) && (n <=? 126))%N.



(** * Properties *)

(** ** The embedding on small inputs *)

Example lower_mixed_case : PyStr.lower "Request CHANGES: x" = "request changes: x".
Proof. reflexivity. Qed.

Example strip_both_ends :
  PyStr.strip ("  a b" +:+ nl +:+ " ") = "a b".
Proof. by vm_compute. Qed.

Example json_dumps_escapes :
  json_dumps [("event", "APPROVE"); ("body", "a" +:+ nl +:+ "b")]
  = "{" +:+ dq +:+ "event" +:+ dq +:+ ": " +:+ dq +:+ "APPROVE" +:+ dq +:+ ", "
        +:+ dq +:+ "body" +:+ dq +:+ ": " +:+ dq +:+ "a" +:+ bs +:+ "nb" +:+ dq +:+ "}".
Proof. reflexivity. Qed.

Example extract_entry_point :
  extract_github_info "https://github.com/merwanehamadi/Auto-GPT/pull/116"
  = Return (Some {| owner := "merwanehamadi"; repo := "Auto-GPT"; pull_id := 116 |}).
Proof. reflexivity. Qed.

Example extract_refuses_long_number :
  extract_github_info (pr_url "foo" "bar" (String.concat "" (replicate 4301 "1")))
  = Raise (ValueError ("Exceeds the limit (4300 digits) for integer string conversion: "
                       +:+ "value has 4301 digits; use sys.set_int_max_str_digits() "
                       +:+ "to increase the limit"))
  /\ exists n, extract_github_info (pr_url "foo" "bar" (String.concat "" (replicate 4300 "1")))
               = Return (Some {| owner := "foo"; repo := "bar"; pull_id := n |}).
Proof. split; [by vm_compute|]. eexists. by vm_compute. Qed.

Example answered_at_once :
  beats (trace (run_chat (always (Return (ok_response "Acceptable"))))) = rounds 10
  /\ outcome (run_chat (always (Return (ok_response "Acceptable")))) = Return "Acceptable".
Proof. by vm_compute. Qed.

(** ** Strings *)

Section StringFacts.
Import PyStr.

Lemma app_cons c (s t : string) : String c s +:+ t = String c (s +:+ t).
Proof. reflexivity. Qed.


Lemma app_assoc' (a b c : string) : (a +:+ b) +:+ c = a +:+ b +:+ c.
Proof. induction a as [|x a IH]; [done|]. by rewrite !app_cons, IH. Qed.

Lemma startswith_app (p r : string) : startswith (p +:+ r) p = true.
Proof.
  induction p as [|c p IH]; [done|].
  rewrite app_cons. simpl. by rewrite Ascii.eqb_refl.
Qed.

Lemma startswith_inv (s p : string) :
  startswith s p = true -> exists r, s = p +:+ r.
Proof.
  revert s. induction p as [|c p IH]; intros s H.
  - by exists s.
  - destruct s as [|b s]; [done|]. simpl in H.
    destruct (Ascii.eqb c b) eqn:E; [|done].
    apply Ascii.eqb_eq in E as ->.
    destruct (IH _ H) as [r ->]. by exists r.
Qed.

Lemma slice_from_app (p r : string) : slice_from (len p) (p +:+ r) = r.
Proof. induction p as [|c p IH]; [by destruct r|]. exact IH. Qed.

Lemma lower_app (a b : string) : lower (a +:+ b) = lower a +:+ lower b.
Proof.
  induction a as [|c a IH]; [done|].
  rewrite app_cons. simpl. by rewrite IH, app_cons.
Qed.

Lemma lower_len (s : string) : len (lower s) = len s.
Proof. induction s as [|c s IH]; [done|]. unfold len in *. simpl. by rewrite IH. Qed.

(** A prefix test on the lowered text finds a prefix of the text itself,
    of the same length, that lowers to the word tested. *)
Lemma startswith_lower_inv (t q : string) :
  startswith (lower t) q = true ->
  exists p rest, t = p +:+ rest /\ lower p = q.
Proof.
  revert t. induction q as [|c q IH]; intros t H.
  - by exists "", t.
  - destruct t as [|b t]; [done|]. simpl in H.
    destruct (Ascii.eqb c (lower_char b)) eqn:E; [|done].
    apply Ascii.eqb_eq in E as ->.
    destruct (IH _ H) as (p & rest & -> & <-).
    by exists (String b p), rest.
Qed.

Lemma startswith_lower_app (p rest : string) :
  startswith (lower (p +:+ rest)) (lower p) = true.
Proof. rewrite lower_app. apply startswith_app. Qed.

Lemma all_app (f : ascii -> bool) (a b : string) :
  all f (a +:+ b) = all f a && all f b.
Proof.
  induction a as [|c a IH]; [done|].
  rewrite app_cons. simpl. by rewrite IH, andb_assoc.
Qed.

(** [lstrip] drops a run of whitespace and stops at the first other
    character. *)
Lemma lstrip_spec (s : string) :
  exists l, s = l +:+ lstrip s /\ all isspace l = true
            /\ head_is isspace (lstrip s) = false.
Proof.
  induction s as [|c s (l & Hs & Hl & Hh)].
  - by exists "".
  - simpl. destruct (isspace c) eqn:E.
    + exists (String c l). rewrite app_cons, <- Hs. simpl. by rewrite E, Hl.
    + exists "". simpl. by rewrite E.
Qed.

Lemma rstrip_spec (s : string) :
  exists r, s = rstrip s +:+ r /\ all isspace r = true
            /\ last_is isspace (rstrip s) = false.
Proof.
  induction s as [|c s (r & Hs & Hr & Hl)].
  - by exists "".
  - simpl. destruct (rstrip s) as [|d u] eqn:E.
    + destruct (isspace c) eqn:Ec.
      * exists (String c r). split; [by rewrite Hs|]. simpl. by rewrite Ec, Hr.
      * exists r. split; [by rewrite Hs|]. split; [done|]. simpl. by rewrite Ec.
    + exists r. by rewrite app_cons, <- Hs.
Qed.

Lemma rstrip_head (s : string) :
  head_is isspace s = false -> head_is isspace (rstrip s) = false.
Proof.
  destruct s as [|c s]; [done|]. simpl. intros H.
  destruct (rstrip s); [by rewrite H|done].
Qed.

(** [strip] removes whitespace at both ends, all of it, and nothing else. *)
Lemma strip_spec (s : string) :
  exists l r, s = l +:+ strip s +:+ r
              /\ all isspace l = true /\ all isspace r = true
              /\ head_is isspace (strip s) = false
              /\ last_is isspace (strip s) = false.
Proof.
  destruct (lstrip_spec s) as (l & Hs & Hl & Hh).
  destruct (rstrip_spec (lstrip s)) as (r & Hs' & Hr & Hla).
  exists l, r. unfold strip. rewrite <- Hs'.
  repeat split; auto using rstrip_head.
Qed.

End StringFacts.

(** ** The verdict *)

Section Verdict.
Import PyStr.

Lemma parse_verdict_accept (s p rest : string) :
  strip s = p +:+ rest -> lower p = "acceptable" ->
  parse_verdict s = Return (true, rest).
Proof.
  intros Hs Hp. unfold parse_verdict. rewrite Hs.
  pose proof (startswith_lower_app p rest) as H. rewrite Hp in H.
  rewrite H. rewrite <- Hp, lower_len. by rewrite slice_from_app.
Qed.

Lemma parse_verdict_reject (s p rest : string) :
  strip s = p +:+ rest -> lower p = "request changes" ->
  parse_verdict s = Return (false, rest).
Proof.
  intros Hs Hp. unfold parse_verdict. rewrite Hs.
  pose proof (startswith_lower_app p rest) as H. rewrite Hp in H.
  rewrite H.
  destruct (startswith (lower (p +:+ rest)) "acceptable") eqn:E.
  - apply startswith_inv in E as [r E]. apply startswith_inv in H as [r' H].
    rewrite H in E. discriminate.
  - rewrite <- Hp, lower_len. by rewrite slice_from_app.
Qed.

Lemma parse_verdict_inv (s : string) (accepted : bool) (tail : string) :
  parse_verdict s = Return (accepted, tail) ->
  exists p, strip s = p +:+ tail
            /\ lower p = (if accepted then "acceptable" else "request changes").
Proof.
  intros H.
  destruct (startswith (lower (strip s)) "acceptable") eqn:E1.
  - destruct (startswith_lower_inv _ _ E1) as (p & rest & Hs & Hp).
    rewrite (parse_verdict_accept s p rest Hs Hp) in H. simplify_eq. eauto.
  - destruct (startswith (lower (strip s)) "request changes") eqn:E2.
    + destruct (startswith_lower_inv _ _ E2) as (p & rest & Hs & Hp).
      rewrite (parse_verdict_reject s p rest Hs Hp) in H. simplify_eq. eauto.
    + unfold parse_verdict in H. by rewrite E1, E2 in H.
Qed.

Lemma parse_verdict_invalid (s : string) :
  (forall p rest, strip s = p +:+ rest ->
     lower p <> "acceptable" /\ lower p <> "request changes") ->
  parse_verdict s = Raise (ValueError ("Invalid response: " +:+ strip s
    +:+ ". It must start with either 'acceptable' or 'request changes'")).
Proof.
  intros H. destruct (parse_verdict s) as [[b e]|x] eqn:E.
  - destruct (parse_verdict_inv _ _ _ E) as (p & Hs & Hp).
    destruct (H _ _ Hs) as [H1 H2]. by destruct b.
  - unfold parse_verdict in E. repeat case_match; by simplify_eq.
Qed.

End Verdict.

(** ** Matching *)

Section Matching.
Import PyStr.

Lemma expect_app (p s : string) : expect p (p +:+ s) = Some s.
Proof.
  induction p as [|c p IH]; [by destruct s|].
  rewrite app_cons. simpl. by rewrite Ascii.eqb_refl.
Qed.


Lemma span_app (f : ascii -> bool) (a b : string) :
  all f a = true -> head_is f b = false -> span f (a +:+ b) = (a, b).
Proof.
  intros Ha Hb. induction a as [|c a IH].
  - destruct b as [|d b]; [done|]. simpl in *. by rewrite Hb.
  - simpl in Ha. apply andb_prop in Ha as [Hc Ha].
    rewrite app_cons. simpl. by rewrite Hc, IH.
Qed.




End Matching.

(** ** The pattern of [extract_github_info] *)

Section Pattern.
Import PyStr.

(** A URL of the expected form, followed by text that does not begin
    with a digit, matches with the groups it was built from. *)
Lemma re_match_pr_exact (any : ascii) (o r d rest : string) :
  not_newline any = true -> segment o -> segment r -> digits d ->
  head_is is_digit rest = false ->
  re_match_pr ("https://github" +:+ String any
                 ("com/" +:+ o +:+ "/" +:+ r +:+ "/pull/" +:+ d +:+ rest))
  = Some (o, r, d).
Proof.
  intros Hany [Ho Ho'] [Hr Hr'] [Hd Hd'] Hrest.
  unfold re_match_pr. rewrite expect_app. cbn [mbind option_bind dot].
  rewrite Hany. cbn [mbind option_bind]. rewrite expect_app. cbn [mbind option_bind].
  rewrite (span_app not_slash o) by done.
  rewrite decide_False by done. rewrite expect_app. cbn [mbind option_bind].
  rewrite (span_app not_slash r) by done.
  rewrite decide_False by done. rewrite expect_app. cbn [mbind option_bind].
  rewrite (span_app is_digit d) by done. by rewrite decide_False.
Qed.







End Pattern.

(** ** Traces *)

Lemma beats_app (t1 t2 : list event) : beats (t1 ++ t2) = beats t1 ++ beats t2.
Proof. apply omap_app. Qed.

Lemma warnings_app (t1 t2 : list event) :
  warnings (t1 ++ t2) = (warnings t1 + warnings t2)%nat.
Proof. unfold warnings. by rewrite List.filter_app, length_app. Qed.

Lemma attempts_rounds (n : nat) : length (List.filter is_attempt (rounds n)) = n.
Proof.
  unfold rounds. generalize 0%nat. induction n as [|n IH]; intros a; [done|].
  simpl. by rewrite IH.
Qed.

Lemma pauses_rounds (n : nat) : omap pause_of (rounds n) = map backoff (seq 0 n).
Proof.
  unfold rounds. generalize 0%nat. induction n as [|n IH]; intros a; [done|].
  simpl. by rewrite IH.
Qed.

Lemma backoff_bound (k : nat) : (k < num_retries)%nat -> 4 <= backoff k <= 2048.
Proof.
  unfold backoff, num_retries. intros H.
  change 4 with (2 ^ 2). change 2048 with (2 ^ 11).
  split; apply Z.pow_le_mono_r; lia.
Qed.

(** ** The monad *)

Lemma for_each_app {S} (body : S -> nat -> M S) (l1 l2 : list nat) (st : S) :
  for_each body (l1 ++ l2) st = st' ← for_each body l1 st; for_each body l2 st'.
Proof.
  revert st. induction l1 as [|x l1 IH]; intros st; simpl.
  - unfold mbind, M_bind, mret, M_ret. by destruct (for_each body l2 st).
  - destruct (body st x) as [t [st'|e]]; [|done].
    unfold mbind, M_bind in *. rewrite IH.
    destruct (for_each body l1 st') as [t1 [st1|e1]]; [|done].
    destruct (for_each body l2 st1). by rewrite app_assoc.
Qed.

(** ** One attempt *)

Section Attempt.
Context (w : world) (req : chat_request).

Local Abbreviation stub := (fun k => ChatCompletion_create w k req).
Local Abbreviation body := (attempt_body w req).

Ltac run := unfold attempt_body, attempt_call, mbind, M_bind, mret, M_ret,
  emit, raise; simpl.

(** An attempt that goes on makes one call, updates the loop variables,
    warns if this is the first rate limit, and sleeps its backoff. *)
Lemma attempt_continues (st : loop_state) (k : nat) :
  continues k (stub k) = true ->
  exists tr, body st k = (tr, Return (absorb st (stub k)))
    /\ beats tr = round k
    /\ warnings tr = (if is_rate_limit (stub k) && negb (warned_user st)
                      then 1 else 0)%nat.
Proof.
  unfold continues, absorb. run.
  destruct (ChatCompletion_create w k req) as [r|x] eqn:E; simpl.
  - intros _. eexists. split; [reflexivity|]. done.
  - destruct x as [| | | | |e|]; simpl; try done.
    destruct e as [[] status]; simpl; try done.
    + intros _. destruct st as [resp []]; simpl; eexists; (split; [reflexivity|done]).
    + intros [H1 H2]%andb_prop. apply bool_decide_eq_true in H1 as ->.
      apply negb_true_iff, bool_decide_eq_false in H2.
      rewrite decide_False by (intros H; by apply H).
      rewrite decide_False by done. simpl.
      eexists; (split; [reflexivity|done]).
    + intros [H1 H2]%andb_prop. apply bool_decide_eq_true in H1 as ->.
      apply negb_true_iff, bool_decide_eq_false in H2.
      rewrite decide_False by (intros H; by apply H).
      rewrite decide_False by done. simpl.
      eexists; (split; [reflexivity|done]).
Qed.

(** An attempt that does not go on makes one call and raises what the
    call raised: no warning, no sleep. *)
Lemma attempt_stops (st : loop_state) (k : nat) :
  continues k (stub k) = false ->
  exists x tr, stub k = Raise x /\ body st k = (tr, Raise x)
    /\ beats tr = [Attempt] /\ warnings tr = 0%nat.
Proof.
  unfold continues. run.
  destruct (ChatCompletion_create w k req) as [r|x] eqn:E; simpl; [done|].
  intros H. exists x.
  destruct x as [| | | | |e|]; simpl in *;
    try (eexists; split; [reflexivity|]; split; [reflexivity|done]).
  destruct e as [[] status]; simpl in *; try done;
    try (eexists; split; [reflexivity|]; split; [reflexivity|done]).
  - destruct (decide (status ≠ Some 502)) as [Hs|Hs]; simpl.
    { eexists; split; [reflexivity|]; split; [reflexivity|done]. }
    rewrite bool_decide_true in H by (by destruct (decide (status = Some 502))).
    simpl in H. apply negb_false_iff, bool_decide_eq_true in H.
    rewrite decide_True by done. simpl.
    eexists; split; [reflexivity|]; split; [reflexivity|done].
  - destruct (decide (status ≠ Some 502)) as [Hs|Hs]; simpl.
    { eexists; split; [reflexivity|]; split; [reflexivity|done]. }
    rewrite bool_decide_true in H by (by destruct (decide (status = Some 502))).
    simpl in H. apply negb_false_iff, bool_decide_eq_true in H.
    rewrite decide_True by done. simpl.
    eexists; split; [reflexivity|]; split; [reflexivity|done].
Qed.

End Attempt.

(** ** The loop *)

Lemma seq_first_stop (P : nat -> bool) (a n : nat) :
  (forall k, (a <= k < a + n)%nat -> P k = true)
  \/ exists k, (a <= k < a + n)%nat /\ P k = false
               /\ forall j, (a <= j < k)%nat -> P j = true.
Proof.
  revert a. induction n as [|n IH]; intros a.
  - left. lia.
  - destruct (P a) eqn:Ha.
    + destruct (IH (S a)) as [H|(k & Hk & Hs & Hb)].
      * left. intros k Hk. destruct (decide (k = a)) as [->|]; [done|]. apply H. lia.
      * right. exists k. split; [lia|]. split; [done|].
        intros j Hj. destruct (decide (j = a)) as [->|]; [done|]. apply Hb. lia.
    + right. exists a. split; [lia|]. split; [done|]. lia.
Qed.

Section Loop.
Context (w : world) (req : chat_request).

Local Abbreviation stub := (fun k => ChatCompletion_create w k req).
Local Abbreviation body := (attempt_body w req).

Lemma warned_absorb (st : loop_state) (o : result chat_response) :
  warned_user (absorb st o) = warned_user st || is_rate_limit o.
Proof.
  destruct o as [r|x]; unfold absorb; [simpl; by rewrite orb_false_r|].
  destruct (is_rate_limit (Raise x)); simpl; [by rewrite orb_true_r|].
  by rewrite orb_false_r.
Qed.

Lemma warned_once_cons (k : nat) (l : list nat) (st : loop_state) :
  ((if is_rate_limit (stub k) && negb (warned_user st) then 1 else 0)
   + warned_once stub l (absorb st (stub k)))%nat = warned_once stub (k :: l) st.
Proof.
  unfold warned_once. rewrite warned_absorb. simpl.
  destruct (is_rate_limit _), (any_rate_limit _ _), (warned_user st); done.
Qed.

(** Attempts that all go on: each is a round, and the warning is logged
    once if the user was not warned before and some attempt was
    rate-limited. *)
Lemma loop_continues (l : list nat) (st : loop_state) :
  (forall k, k ∈ l -> continues k (stub k) = true) ->
  exists tr, for_each body l st = (tr, Return (absorb_all stub l st))
    /\ beats tr = flat_map round l
    /\ warnings tr = warned_once stub l st.
Proof.
  revert st. induction l as [|k l IH]; intros st H.
  - exists []. unfold warned_once. done.
  - destruct (attempt_continues w req st k) as (t1 & E1 & B1 & W1).
    { apply H. by left. }
    destruct (IH (absorb st (stub k))) as (t2 & E2 & B2 & W2).
    { intros j Hj. apply H. by right. }
    exists (t1 ++ t2). simpl. rewrite E1. unfold mbind, M_bind. rewrite E2.
    split; [done|]. rewrite beats_app, warnings_app, B1, B2, W1, W2.
    split; [done|]. apply warned_once_cons.
Qed.

(** Attempts that go on, then one that does not: the loop ends there, with
    what the last call raised. *)
Lemma loop_stops (l1 : list nat) (k : nat) (l2 : list nat) (st : loop_state) :
  (forall j, j ∈ l1 -> continues j (stub j) = true) ->
  continues k (stub k) = false ->
  exists x tr, stub k = Raise x
    /\ for_each body (l1 ++ k :: l2) st = (tr, Raise x)
    /\ beats tr = flat_map round l1 ++ [Attempt]
    /\ warnings tr = warned_once stub l1 st.
Proof.
  intros H1 Hk.
  destruct (loop_continues l1 st H1) as (t1 & E1 & B1 & W1).
  destruct (attempt_stops w req (absorb_all stub l1 st) k Hk) as (x & t2 & Ex & E2 & B2 & W2).
  exists x, (t1 ++ t2). split; [done|].
  rewrite for_each_app, E1. simpl. unfold mbind, M_bind. rewrite E2.
  split; [done|]. rewrite beats_app, warnings_app, B1, B2, W1, W2.
  split; [done|]. lia.
Qed.

Lemma warned_absorb_all (l : list nat) (st : loop_state) :
  warned_user (absorb_all stub l st) = warned_user st || any_rate_limit stub l.
Proof.
  revert st. induction l as [|k l IH]; intros st; simpl; [by rewrite orb_false_r|].
  unfold absorb_all in *. simpl. by rewrite IH, warned_absorb, orb_assoc.
Qed.

(** Once the user has been warned, nothing the loop does warns again. *)
Lemma loop_warned_quiet (l : list nat) (st : loop_state) :
  warned_user st = true -> warnings (trace (for_each body l st)) = 0%nat.
Proof.
  revert st. induction l as [|k l IH]; intros st Hw; [done|].
  simpl. destruct (continues k (stub k)) eqn:Hc.
  - destruct (attempt_continues w req st k Hc) as (t1 & E1 & _ & W1).
    rewrite E1. unfold mbind, M_bind.
    specialize (IH (absorb st (stub k))). rewrite warned_absorb, Hw in IH.
    specialize (IH eq_refl).
    destruct (for_each _ l _) as [t2 r]. unfold trace in *. cbn [fst] in *.
    rewrite warnings_app, W1, IH, Hw. by rewrite andb_false_r.
  - destruct (attempt_stops w req st k Hc) as (x & t1 & _ & E1 & _ & W1).
    by rewrite E1.
Qed.

Lemma not_rate_limit (o : result chat_response) :
  is_answer o || is_bad_gateway o = true -> is_rate_limit o = false.
Proof.
  destruct o as [r|[| | | | |[[] status]|]]; done.
Qed.

Lemma no_rate_limit_before (i : nat) :
  (forall j, (j < i)%nat -> is_answer (stub j) || is_bad_gateway (stub j) = true) ->
  any_rate_limit stub (seq 0 i) = false.
Proof.
  intros H. unfold any_rate_limit. apply not_true_is_false.
  intros (j & Hj%in_seq & Hr)%existsb_exists.
  rewrite not_rate_limit in Hr; [done|]. apply H. lia.
Qed.

(** The first rate-limited attempt: the rounds before it log no warning,
    its own round logs one and runs to its sleep, and what follows logs
    none. *)
Lemma loop_first_rate_limit (i : nat) :
  (i < num_retries)%nat ->
  (forall j, (j < i)%nat -> is_answer (stub j) || is_bad_gateway (stub j) = true) ->
  is_rate_limit (stub i) = true ->
  exists t0 t1 t2 r, retry_loop w req = (t0 ++ t1 ++ t2, r)
    /\ beats t0 = rounds i /\ beats t1 = round i
    /\ warnings t0 = 0%nat /\ warnings t1 = 1%nat /\ warnings t2 = 0%nat.
Proof.
  intros Hi Hb Hr.
  destruct (loop_continues (seq 0 i) loop_init) as (t0 & E0 & B0 & W0).
  { intros j Hj%elem_of_seq. unfold continues.
    rewrite (bool_decide_false (j = _)) by (unfold num_retries in *; lia).
    rewrite andb_true_r. specialize (Hb j ltac:(lia)). cbv beta in *.
    apply orb_true_iff in Hb as [-> | ->]; [done|]. by rewrite !orb_true_r. }
  set (st0 := absorb_all stub (seq 0 i) loop_init) in *.
  assert (warned_user st0 = false) as Hw0.
  { unfold st0. rewrite warned_absorb_all. by rewrite no_rate_limit_before. }
  destruct (attempt_continues w req st0 i) as (t1 & E1 & B1 & W1).
  { unfold continues. by rewrite Hr, orb_true_r. }
  set (rest := seq (S i) (num_retries - S i)).
  pose proof (loop_warned_quiet rest (absorb st0 (stub i))) as W2.
  rewrite warned_absorb, Hr, orb_true_r in W2. specialize (W2 eq_refl).
  destruct (for_each body rest (absorb st0 (stub i))) as [t2 r] eqn:E2.
  exists t0, t1, t2, r. split.
  - unfold retry_loop.
    replace (seq 0 num_retries) with (seq 0 i ++ i :: rest).
    + rewrite for_each_app, E0. unfold mbind, M_bind. simpl.
      rewrite E1. unfold mbind, M_bind. by rewrite E2.
    + unfold rest. replace num_retries with (i + S (num_retries - S i))%nat at 2 by lia.
      by rewrite seq_app.
  - split; [done|]. split; [done|]. split.
    + rewrite W0. unfold warned_once. by rewrite no_rate_limit_before.
    + split; [|done]. by rewrite W1, Hr, Hw0.
Qed.

Lemma retry_loop_all :
  (forall k, (k < num_retries)%nat -> continues k (stub k) = true) ->
  exists tr,
    retry_loop w req = (tr, Return (absorb_all stub (seq 0 num_retries) loop_init))
    /\ beats tr = rounds num_retries
    /\ warnings tr = (if any_rate_limit stub (seq 0 num_retries) then 1 else 0)%nat.
Proof.
  intros H. destruct (loop_continues (seq 0 num_retries) loop_init) as (tr & E & B & W).
  { intros k Hk%elem_of_seq. apply H. lia. }
  exists tr. split; [done|]. split; [done|].
  rewrite W. unfold warned_once. simpl. by rewrite andb_true_r.
Qed.

Lemma retry_loop_stop (k : nat) :
  (k < num_retries)%nat ->
  (forall j, (j < k)%nat -> continues j (stub j) = true) ->
  continues k (stub k) = false ->
  exists x tr, stub k = Raise x
    /\ retry_loop w req = (tr, Raise x)
    /\ beats tr = rounds k ++ [Attempt]
    /\ warnings tr = (if any_rate_limit stub (seq 0 k) then 1 else 0)%nat.
Proof.
  intros Hk Hb Hs.
  destruct (loop_stops (seq 0 k) k (seq (S k) (num_retries - S k)) loop_init)
    as (x & tr & Ex & E & B & W); [|done|].
  { intros j Hj%elem_of_seq. apply Hb. lia. }
  exists x, tr. split; [done|]. split.
  - unfold retry_loop. rewrite <- E. f_equal.
    replace num_retries with (k + S (num_retries - S k))%nat at 1 by lia.
    by rewrite seq_app.
  - split; [done|]. rewrite W. unfold warned_once. simpl. by rewrite andb_true_r.
Qed.

(** The loop either runs its ten rounds or stops at the first attempt
    that does not go on. *)
Lemma retry_loop_cases :
  (exists tr, retry_loop w req
              = (tr, Return (absorb_all stub (seq 0 num_retries) loop_init))
     /\ (forall k, (k < num_retries)%nat -> continues k (stub k) = true)
     /\ beats tr = rounds num_retries
     /\ warnings tr = (if any_rate_limit stub (seq 0 num_retries) then 1 else 0)%nat)
  \/ (exists k x tr, (k < num_retries)%nat
        /\ (forall j, (j < k)%nat -> continues j (stub j) = true)
        /\ continues k (stub k) = false
        /\ stub k = Raise x
        /\ retry_loop w req = (tr, Raise x)
        /\ beats tr = rounds k ++ [Attempt]
        /\ warnings tr = (if any_rate_limit stub (seq 0 k) then 1 else 0)%nat).
Proof.
  destruct (seq_first_stop (fun k => continues k (stub k)) 0 num_retries)
    as [H|(k & Hk & Hs & Hb)].
  - left. destruct retry_loop_all as (tr & ? & ? & ?).
    { intros k Hk. apply H. lia. }
    exists tr. repeat split; try done. intros k Hk. apply H. lia.
  - right. destruct (retry_loop_stop k) as (x & tr & ? & ? & ? & ?); [lia| |done|].
    { intros j Hj. apply Hb. lia. }
    exists k, x, tr. repeat split; try done; try lia. intros j Hj. apply Hb. lia.
Qed.

End Loop.

(** ** The whole call *)

Section Client.
Context (w : world) (messages : list chat_message) (model : option string)
        (temperature : option Z) (max_tokens : option Z).

Local Abbreviation req :=
  (chat_request_of w messages model (default_temperature temperature) max_tokens).
Local Abbreviation stub := (fun k => ChatCompletion_create w k req).
Local Abbreviation run :=
  (create_chat_completion w messages model temperature max_tokens).

Lemma first_content_quiet (st : loop_state) :
  beats (trace (first_content st)) = []
  /\ warnings (trace (first_content st)) = 0%nat.
Proof.
  unfold first_content, mbind, M_bind, mret, M_ret, emit, raise.
  destruct (response st) as [[[|c cs]]|]; simpl; try done.
  by destruct (message c !! "content").
Qed.

Local Abbreviation opening :=
  (opening_log model (default_temperature temperature) max_tokens).

Lemma client_raise (tr : list event) (x : exn) :
  retry_loop w req = (tr, Raise x) ->
  run = ([opening] ++ tr, Raise x).
Proof.
  intros E. unfold create_chat_completion, mbind, M_bind, emit. simpl.
  by rewrite E.
Qed.

Lemma client_return (tr : list event) (st : loop_state) :
  retry_loop w req = (tr, Return st) ->
  run = ([opening] ++ tr ++ trace (first_content st), outcome (first_content st)).
Proof.
  intros E. unfold create_chat_completion, mbind, M_bind, emit. simpl.
  rewrite E. by destruct (first_content st).
Qed.

Lemma beats_opening (tr : list event) : beats ([opening] ++ tr) = beats tr.
Proof. done. Qed.

Lemma warnings_opening (tr : list event) : warnings ([opening] ++ tr) = warnings tr.
Proof. done. Qed.

Lemma beats_closing (tr : list event) (st : loop_state) :
  beats (tr ++ trace (first_content st)) = beats tr.
Proof.
  rewrite beats_app. destruct (first_content_quiet st) as [-> _].
  by rewrite app_nil_r.
Qed.

Lemma warnings_closing (tr : list event) (st : loop_state) :
  warnings (tr ++ trace (first_content st)) = warnings tr.
Proof.
  rewrite warnings_app. destruct (first_content_quiet st) as [_ ->]. lia.
Qed.

(** The calls and sleeps of any call: rounds, then possibly one last
    attempt, which raised. *)
Lemma client_beats :
  (beats (trace run) = rounds num_retries
   /\ forall k, (k < num_retries)%nat -> continues k (stub k) = true)
  \/ exists k x, (k < num_retries)%nat
       /\ (forall j, (j < k)%nat -> continues j (stub j) = true)
       /\ continues k (stub k) = false
       /\ stub k = Raise x
       /\ outcome run = Raise x
       /\ beats (trace run) = rounds k ++ [Attempt].
Proof.
  destruct (retry_loop_cases w req)
    as [(tr & E & H & B & W)|(k & x & tr & Hk & Hb & Hs & Ex & E & B & W)].
  - left. rewrite (client_return _ _ E). unfold trace at 1. cbn [fst].
    by rewrite beats_opening, beats_closing.
  - right. rewrite (client_raise _ _ E). unfold trace, outcome. cbn [fst snd].
    rewrite beats_opening. exists k, x. done.
Qed.

End Client.

Lemma rounds_add (m n : nat) : rounds (m + n) = rounds m ++ flat_map round (seq m n).
Proof. unfold rounds. by rewrite seq_app, flat_map_app. Qed.

Lemma rounds_prefix_attempt (m n : nat) :
  (m < n)%nat -> (rounds m ++ [Attempt]) `prefix_of` rounds n.
Proof.
  intros H. replace n with (m + S (n - S m))%nat by lia.
  rewrite rounds_add. apply prefix_app. simpl. by apply prefix_cons, prefix_nil.
Qed.

Lemma rounds_attempt_prefix (m n : nat) :
  (m <= n)%nat -> (rounds m ++ [Attempt]) `prefix_of` (rounds n ++ [Attempt]).
Proof.
  intros H. destruct (decide (m = n)) as [->|Hne]; [done|].
  apply prefix_app_r, rounds_prefix_attempt. lia.
Qed.

Lemma survives_continues (k : nat) (o : result chat_response) :
  (k < num_retries - 1)%nat -> survives o = true -> continues k o = true.
Proof.
  unfold survives, continues. intros Hk H.
  rewrite (bool_decide_false (k = _)) by lia. simpl. by rewrite andb_true_r.
Qed.

Lemma chat_calls_rounds_attempt (tr : list event) (k : nat) :
  beats tr = rounds k ++ [Attempt] -> chat_calls tr = S k.
Proof.
  unfold chat_calls. intros ->.
  rewrite List.filter_app, length_app, attempts_rounds. simpl. lia.
Qed.

(** * The claims *)

(** ** C1: which failures are retried *)

(** C1, the code where the claim fails.  The handler that lets the loop
    retry names [APIError] and [Timeout], and then judges the error by its
    HTTP status alone.  With status 502 the client goes on to the next
    attempt (after the sleep), unless the attempt was the tenth, in which
    case the error propagates: so far the claim.  With any other status, or
    with none, the error propagates at once, the failing call being the last
    event of the call: so it is for every timeout that carries no status,
    which the claim says is retried, and for errors of any other class but
    the rate limit. *)
Theorem C1_status_502_decides_retry
    (w : world) (messages : list chat_message) (model : option string)
    (temperature max_tokens : option Z) (i : nat) (e : openai_error) :
  let req := chat_request_of w messages model (default_temperature temperature) max_tokens in
  let run := create_chat_completion w messages model temperature max_tokens in
  let bad_gateway :=
    (err_class e = APIError \/ err_class e = Timeout) /\ http_status e = Some 502 in
  (i < num_retries)%nat ->
  (forall j, (j < i)%nat -> survives (ChatCompletion_create w j req) = true) ->
  ChatCompletion_create w i req = Raise (OpenAIError e) ->
  err_class e <> RateLimitError ->
  (bad_gateway -> (i < num_retries - 1)%nat ->
     (rounds (S i) ++ [Attempt]) `prefix_of` beats (trace run))
  /\ (bad_gateway -> i = (num_retries - 1)%nat ->
      outcome run = Raise (OpenAIError e)
      /\ beats (trace run) = rounds i ++ [Attempt]
      /\ chat_calls (trace run) = num_retries)
  /\ (~ bad_gateway ->
      outcome run = Raise (OpenAIError e)
      /\ beats (trace run) = rounds i ++ [Attempt]
      /\ chat_calls (trace run) = S i).
Proof.
  intros req run bad_gateway Hi Hb Ei Hc.
  assert (forall j, (j < i)%nat -> continues j (ChatCompletion_create w j req) = true) as Hb'.
  { intros j Hj. apply survives_continues; [unfold num_retries in *; lia|by apply Hb]. }
  assert (bad_gateway -> is_bad_gateway (ChatCompletion_create w i req) = true) as Hg1.
  { intros [Hcl Hs]. rewrite Ei. simpl. rewrite bool_decide_true by done.
    by destruct Hcl as [-> | ->]. }
  assert (~ bad_gateway -> is_bad_gateway (ChatCompletion_create w i req) = false) as Hg0.
  { intros Hn. rewrite Ei. simpl. unfold bad_gateway in Hn.
    destruct (err_class e); try done;
      (apply bool_decide_eq_false; intros Hs; apply Hn; split; [auto|done]). }
  assert (continues i (ChatCompletion_create w i req)
          = is_bad_gateway (ChatCompletion_create w i req)
            && negb (bool_decide (i = (num_retries - 1)%nat))) as Hci.
  { unfold continues. rewrite Ei. simpl. by destruct (err_class e). }
  assert (continues i (ChatCompletion_create w i req) = false ->
          outcome run = Raise (OpenAIError e)
          /\ beats (trace run) = rounds i ++ [Attempt]
          /\ chat_calls (trace run) = S i) as Hstop.
  { intros Hs.
    destruct (retry_loop_stop w req i Hi Hb' Hs) as (x & tr & Ex & E & B & _).
    assert (beats (trace run) = rounds i ++ [Attempt]) as B'.
    { unfold run. rewrite (client_raise _ _ _ _ _ _ _ E).
      unfold trace. cbn [fst]. by rewrite beats_opening. }
    split; [|split; [done|by apply chat_calls_rounds_attempt]].
    unfold run. rewrite (client_raise _ _ _ _ _ _ _ E).
    cbv beta in Ex. rewrite Ei in Ex. by simplify_eq. }
  split; [|split].
  - intros Hbg Hlast.
    assert (forall j, (j <= i)%nat -> continues j (ChatCompletion_create w j req) = true) as Hall.
    { intros j Hj. destruct (decide (j = i)) as [->|]; [|apply Hb'; lia].
      rewrite Hci, Hg1 by done. rewrite bool_decide_false by lia. done. }
    destruct (client_beats w messages model temperature max_tokens)
      as [[B _]|(k & x & Hk & _ & Hs' & _ & _ & B)]; fold run in B; rewrite B.
    + apply rounds_prefix_attempt. unfold num_retries in *. lia.
    + assert (i < k)%nat as Hik.
      { destruct (decide (i < k)%nat); [done|]. rewrite Hall in Hs' by lia. done. }
      apply rounds_attempt_prefix. lia.
  - intros Hbg Hlast.
    assert (num_retries = S i) as Hn by (unfold num_retries in *; lia).
    rewrite Hn at 1. apply Hstop. rewrite Hci.
    by rewrite (bool_decide_true (_ = (_ - _)%nat)), andb_false_r.
  - intros Hn. apply Hstop. rewrite Hci. by rewrite Hg0.
Qed.

Lemma C1_status_502_decides_retry_witness :
  let late := fail_then_ok 4 (OpenAIError (api_error (Some 502))) "Acceptable" in
  let timed_out := always (Raise (OpenAIError (timeout_error None))) in
  ((forall j, (j < 3)%nat -> survives (late j) = true)
   /\ late 3%nat = Raise (OpenAIError (api_error (Some 502)))
   /\ (rounds 4 ++ [Attempt]) `prefix_of` beats (trace (run_chat late)))
  /\ (timed_out 0%nat = Raise (OpenAIError (timeout_error None))
      /\ outcome (run_chat timed_out) = Raise (OpenAIError (timeout_error None))
      /\ beats (trace (run_chat timed_out)) = [Attempt]
      /\ chat_calls (trace (run_chat timed_out)) = 1%nat).
Proof.
  intros late timed_out. split.
  - assert (forall j, (j < 3)%nat -> survives (late j) = true) as Hb.
    { intros j Hj. destruct j as [|[|[|j]]]; [reflexivity..|lia]. }
    split; [exact Hb|]. split; [reflexivity|].
    refine (proj1 (C1_status_502_decides_retry (stub_world diff_ok late) []
                     (Some "gpt-4") None None 3 (api_error (Some 502)) _ Hb _ _) _ _).
    + unfold num_retries. lia.
    + reflexivity.
    + discriminate.
    + split; [left|]; reflexivity.
    + unfold num_retries. lia.
  - split; [reflexivity|].
    refine (proj2 (proj2 (C1_status_502_decides_retry (stub_world diff_ok timed_out) []
                     (Some "gpt-4") None None 0 (timeout_error None) _ _ _ _)) _).
    + unfold num_retries. lia.
    + intros j Hj. lia.
    + reflexivity.
    + discriminate.
    + intros [_ H]. discriminate H.
Defined.

(** C1 at the failing input: the first attempt times out, the error carries
    no HTTP status, and the client makes no second attempt although nine
    remain; the timeout propagates at once. *)
Lemma C1_timeout_without_status_not_retried :
  let run := run_chat (always (Raise (OpenAIError (timeout_error None)))) in
  err_class (timeout_error None) = Timeout
  /\ chat_calls (trace run) = 1%nat
  /\ sleeps (trace run) = []
  /\ outcome run = Raise (OpenAIError (timeout_error None)).
Proof. vm_compute. done. Qed.

(** ** C2: ten attempts without an answer *)

Lemma response_absorb_all_none (stub : nat -> result chat_response)
    (l : list nat) (st : loop_state) :
  (forall k, k ∈ l -> is_answer (stub k) = false) ->
  response (absorb_all stub l st) = response st.
Proof.
  revert st. induction l as [|k l IH]; intros st H; [done|].
  unfold absorb_all in *. simpl. rewrite IH.
  - specialize (H k ltac:(by left)). unfold absorb.
    destruct (stub k) as [r|x]; [done|]. by destruct (is_rate_limit (Raise x)).
  - intros j Hj. apply H. by right.
Qed.

(** C2, the code where the claim fails.  When none of the ten attempts is
    answered and none raises (each is rate-limited, or fails with status 502
    before the tenth), the loop ends with [response] still [None]; the
    failure is logged, and the function goes on to read [response.choices]:
    what reaches the caller is the [AttributeError] of that read, no error
    of the client's own.  So it is for a stub that always signals a rate
    limit.  A stub that always fails with status 502 never gets that far:
    the tenth [APIError] propagates. *)
Theorem C2_no_answer_ends_in_attribute_error :
  (forall w messages model temperature max_tokens,
     let req := chat_request_of w messages model (default_temperature temperature) max_tokens in
     let run := create_chat_completion w messages model temperature max_tokens in
     (forall k, (k < num_retries)%nat ->
        is_answer (ChatCompletion_create w k req) = false
        /\ continues k (ChatCompletion_create w k req) = true) ->
     outcome run
     = Raise (AttributeError "'NoneType' object has no attribute 'choices'")
     /\ beats (trace run) = rounds num_retries
     /\ exists msg args, last (trace run) = Some (Log ERROR msg args))
  /\ (let limited := run_chat (always (Raise (OpenAIError rate_limit_error))) in
      outcome limited
      = Raise (AttributeError "'NoneType' object has no attribute 'choices'")
      /\ chat_calls (trace limited) = 10%nat
      /\ sleeps (trace limited) = [4; 8; 16; 32; 64; 128; 256; 512; 1024; 2048])
  /\ (let gateway := run_chat (always (Raise (OpenAIError (api_error (Some 502))))) in
      outcome gateway = Raise (OpenAIError (api_error (Some 502)))
      /\ beats (trace gateway) = rounds 9 ++ [Attempt]).
Proof.
  split; [|split; by vm_compute].
  intros w messages model temperature max_tokens req run H.
  destruct (retry_loop_all w req) as (tr & E & B & _).
  { intros k Hk. by apply H. }
  assert (response (absorb_all (fun k => ChatCompletion_create w k req)
                      (seq 0 num_retries) loop_init) = None) as Hnone.
  { rewrite response_absorb_all_none; [done|].
    intros k Hk%elem_of_seq. apply H. lia. }
  unfold run. rewrite (client_return _ _ _ _ _ _ _ E).
  unfold outcome at 1, trace at 1 2. cbn [fst snd].
  unfold first_content. rewrite Hnone.
  split; [done|]. split.
  - unfold trace. cbn [fst]. by rewrite beats_opening, beats_app, B, app_nil_r.
  - eexists _, _. unfold trace, mbind, M_bind, emit, raise. cbn [fst].
    rewrite app_assoc. apply last_snoc.
Qed.

Lemma C2_no_answer_ends_in_attribute_error_witness :
  let chat := always (Raise (OpenAIError rate_limit_error)) in
  (forall k, (k < num_retries)%nat ->
     is_answer (chat k) = false /\ continues k (chat k) = true)
  /\ outcome (run_chat chat)
     = Raise (AttributeError "'NoneType' object has no attribute 'choices'").
Proof.
  intros chat.
  assert (forall k, (k < num_retries)%nat ->
            is_answer (chat k) = false /\ continues k (chat k) = true) as H.
  { intros k _. split; reflexivity. }
  split; [exact H|].
  exact (proj1 (proj1 C2_no_answer_ends_in_attribute_error
                  (stub_world diff_ok chat) [] (Some "gpt-4") None None H)).
Defined.

(** ** C3: the rate-limit warning *)

Lemma response_absorb_all_last (stub : nat -> result chat_response)
    (l : list nat) (k : nat) (r : chat_response) (st : loop_state) :
  stub k = Return r -> response (absorb_all stub (l ++ [k]) st) = Some r.
Proof.
  intros E. unfold absorb_all. rewrite fold_left_app. simpl. by rewrite E.
Qed.

(** C3, the code where the claim fails.  The first half of the claim
    holds: a rate-limited attempt does not end the call, and the warning is
    logged once, in the round of the first rate-limited attempt [i]; the
    rounds before it log none and what follows logs none.  The second half
    does not: the loop has no exit after an answer.  An attempt that is
    answered before the tenth is followed by its sleep and by another call,
    and the call returns a value only after ten calls, each with its sleep.
    So with a stub that signals a rate limit twice, answers, and then fails
    with status 500, the answer is lost and the error propagates; and with
    one that answers differently afterwards, the later answer is returned. *)
Theorem C3_answer_is_followed_by_more_calls :
  (forall (w : world) (messages : list chat_message) (model : option string)
          (temperature max_tokens : option Z),
     let req := chat_request_of w messages model (default_temperature temperature) max_tokens in
     let stub := fun k => ChatCompletion_create w k req in
     let run := create_chat_completion w messages model temperature max_tokens in
     (forall i, (i < num_retries)%nat ->
        (forall j, (j < i)%nat -> is_answer (stub j) || is_bad_gateway (stub j) = true) ->
        is_rate_limit (stub i) = true ->
        warnings (trace run) = 1%nat
        /\ exists t0 t1 t2, trace run = t0 ++ t1 ++ t2
             /\ beats t0 = rounds i /\ beats t1 = round i
             /\ warnings t0 = 0%nat /\ warnings t1 = 1%nat /\ warnings t2 = 0%nat)
     /\ (forall i r, (i < num_retries - 1)%nat ->
          (forall j, (j < i)%nat -> survives (stub j) = true) ->
          stub i = Return r ->
          (rounds (S i) ++ [Attempt]) `prefix_of` beats (trace run))
     /\ (forall s, outcome run = Return s -> beats (trace run) = rounds num_retries))
  /\ (let lost := run_chat (script [Raise (OpenAIError rate_limit_error);
                                    Raise (OpenAIError rate_limit_error);
                                    Return (ok_response "Acceptable")]
                              (Raise (OpenAIError (api_error (Some 500))))) in
      outcome lost = Raise (OpenAIError (api_error (Some 500)))
      /\ beats (trace lost) = rounds 3 ++ [Attempt]
      /\ warnings (trace lost) = 1%nat)
  /\ (let later := run_chat (script [Raise (OpenAIError rate_limit_error);
                                     Raise (OpenAIError rate_limit_error);
                                     Return (ok_response "Acceptable")]
                               (Return (ok_response "Request changes"))) in
      outcome later = Return "Request changes"
      /\ beats (trace later) = rounds 10
      /\ warnings (trace later) = 1%nat).
Proof.
  split; [|split; by vm_compute].
  intros w messages model temperature max_tokens req stub run.
  split; [|split].
  - intros i Hi Hb Hr.
    destruct (loop_first_rate_limit w req i Hi Hb Hr)
      as (t0 & t1 & t2 & r & E & B0 & B1 & W0 & W1 & W2).
    assert (exists t2', trace run = ([opening_log model (default_temperature temperature) max_tokens] ++ t0)
                                    ++ t1 ++ t2' /\ warnings t2' = 0%nat)
      as (t2' & Et & W2').
    { destruct r as [st|x].
      - exists (t2 ++ trace (first_content st)). unfold run.
        rewrite (client_return _ _ _ _ _ _ _ E). unfold trace at 1. cbn [fst].
        split; [by rewrite <- !app_assoc|].
        by rewrite warnings_closing.
      - exists t2. unfold run.
        rewrite (client_raise _ _ _ _ _ _ _ E). unfold trace. cbn [fst].
        split; [by rewrite <- !app_assoc|done]. }
    split.
    + rewrite Et, warnings_app, warnings_opening, warnings_app, W0, W1, W2'. done.
    + eexists _, t1, t2'. split; [exact Et|].
      rewrite beats_opening, warnings_opening. done.
  - intros i r Hi Hb Er. subst stub. cbv beta in *.
    assert (forall j, (j <= i)%nat ->
              continues j (ChatCompletion_create w j req) = true) as Hall.
    { intros j Hj. destruct (decide (j = i)) as [->|].
      - unfold continues. by rewrite Er.
      - apply survives_continues; [lia|]. apply Hb. lia. }
    destruct (client_beats w messages model temperature max_tokens)
      as [[B _]|(k & x & Hk & _ & Hs & _ & _ & B)]; fold run in B; rewrite B.
    + apply rounds_prefix_attempt. lia.
    + assert (i < k)%nat as Hik.
      { destruct (decide (i < k)%nat); [done|].
        fold req in Hs. rewrite Hall in Hs by lia. done. }
      apply rounds_attempt_prefix. lia.
  - intros s Hr.
    destruct (client_beats w messages model temperature max_tokens)
      as [[B _]|(k & x & Hk & _ & _ & _ & Ho & B)]; [done|].
    fold run in Ho. rewrite Ho in Hr. discriminate.
Qed.

Lemma C3_answer_is_followed_by_more_calls_witness :
  let chat := script [Raise (OpenAIError rate_limit_error);
                      Raise (OpenAIError rate_limit_error);
                      Return (ok_response "Acceptable")]
                (Raise (OpenAIError (api_error (Some 500)))) in
  (forall j, (j < 2)%nat -> survives (chat j) = true)
  /\ chat 2%nat = Return (ok_response "Acceptable")
  /\ (rounds 3 ++ [Attempt]) `prefix_of` beats (trace (run_chat chat))
  /\ outcome (run_chat chat) <> Return "Acceptable".
Proof.
  intros chat.
  assert (forall j, (j < 2)%nat -> survives (chat j) = true) as Hb.
  { intros j Hj. destruct j as [|[|j]]; [reflexivity..|lia]. }
  split; [exact Hb|]. split; [reflexivity|]. split.
  - refine (proj1 (proj2 (proj1 C3_answer_is_followed_by_more_calls
              (stub_world diff_ok chat) [] (Some "gpt-4") None None))
              2%nat (ok_response "Acceptable") _ Hb _).
    + unfold num_retries. lia.
    + reflexivity.
  - vm_compute. discriminate.
Defined.

(** ** C4: the backoff schedule *)

Lemma sleeps_rounds (tr : list event) (k : nat) :
  beats tr = rounds k -> sleeps tr = map backoff (seq 0 k).
Proof. unfold sleeps. intros ->. apply pauses_rounds. Qed.

Lemma sleeps_rounds_attempt (tr : list event) (k : nat) :
  beats tr = rounds k ++ [Attempt] -> sleeps tr = map backoff (seq 0 k).
Proof.
  unfold sleeps. intros ->. rewrite omap_app, pauses_rounds. simpl.
  by rewrite app_nil_r.
Qed.

Lemma backoffs_bounded (k : nat) :
  (k <= num_retries)%nat ->
  Forall (fun d => 4 <= d <= 2048) (map backoff (seq 0 k)).
Proof.
  intros Hk. apply List.Forall_forall. intros d (j & <- & Hj%in_seq)%in_map_iff.
  apply backoff_bound. lia.
Qed.

(** C4, as amended.  The calls and sleeps of any call alternate from the
    start: attempt 0, sleep, attempt 1, sleep, and so on, the sleep after
    attempt [k] lasting exactly [2 ^ (k + 2)] seconds, so that every retry
    comes right after the sleep of the attempt before it, a rate-limited one
    included.  The attempts that are followed by their sleep are those that
    do not raise; the sequence ends with the first attempt that raises, or
    else after the sleep of the tenth attempt: a sleep need not be followed
    by a retry.  No sleep is shorter than 4 or longer than [2 ^ 11 = 2048]
    seconds, and 2048 is what the client sleeps after a rate-limited tenth
    attempt. *)
Theorem C4_sleep_follows_each_attempt
    (w : world) (messages : list chat_message) (model : option string)
    (temperature max_tokens : option Z) :
  let req := chat_request_of w messages model (default_temperature temperature) max_tokens in
  let stub := fun k => ChatCompletion_create w k req in
  let run := create_chat_completion w messages model temperature max_tokens in
  (exists k, (k <= num_retries)%nat
     /\ (forall j, (j < k)%nat -> continues j (stub j) = true)
     /\ sleeps (trace run) = map backoff (seq 0 k)
     /\ (k = num_retries /\ beats (trace run) = rounds num_retries
         \/ (k < num_retries)%nat /\ continues k (stub k) = false
            /\ beats (trace run) = rounds k ++ [Attempt]
            /\ exists x, stub k = Raise x /\ outcome run = Raise x))
  /\ Forall (fun d => 4 <= d <= 2048) (sleeps (trace run))
  /\ (forall k, backoff k = 2 ^ (Z.of_nat k + 2))
  /\ backoff 0 = 4 /\ backoff 9 = 2 ^ 11 /\ 2 ^ 11 = 2048
  /\ last (beats (trace (run_chat (always (Raise (OpenAIError rate_limit_error))))))
     = Some (Pause 2048).
Proof.
  intros req stub run.
  assert (exists k, (k <= num_retries)%nat
     /\ (forall j, (j < k)%nat -> continues j (stub j) = true)
     /\ sleeps (trace run) = map backoff (seq 0 k)
     /\ (k = num_retries /\ beats (trace run) = rounds num_retries
         \/ (k < num_retries)%nat /\ continues k (stub k) = false
            /\ beats (trace run) = rounds k ++ [Attempt]
            /\ exists x, stub k = Raise x /\ outcome run = Raise x))
    as (k & Hk & Hb & Hs & Hc).
  { destruct (client_beats w messages model temperature max_tokens)
      as [[B H]|(k & x & Hk & Hb & Hs & Ex & Ho & B)]; fold run in B.
    - exists num_retries. split; [done|]. split; [exact H|].
      split; [by apply sleeps_rounds|]. by left.
    - exists k. split; [lia|]. split; [exact Hb|].
      split; [by apply sleeps_rounds_attempt|]. right. eauto 10. }
  split; [by exists k|]. split.
  { rewrite Hs. by apply backoffs_bounded. }
  split; [done|]. repeat split; by vm_compute.
Qed.

(** C4 as stated fails: with a stub that always signals a rate limit the
    client makes ten calls and sleeps ten times, and the last thing it
    does on the network is to sleep 2048 seconds; no attempt follows that
    sleep, so it is not a sleep before a retry. *)
Lemma C4_counterexample_sleep_without_retry :
  let run := run_chat (always (Raise (OpenAIError rate_limit_error))) in
  chat_calls (trace run) = 10%nat
  /\ sleeps (trace run) = [4; 8; 16; 32; 64; 128; 256; 512; 1024; 2048]
  /\ last (beats (trace run)) = Some (Pause 2048)
  /\ pauses_precede_attempts (beats (trace run)) = false.
Proof. vm_compute. done. Qed.

(** ** C5: the verdict parser *)

(** C5.  The parser works on the text with the whitespace of both ends
    removed.  It answers [accepted = true] exactly when that text begins,
    whatever the case of its letters, with the word acceptable, and
    [accepted = false] exactly when it begins with the words request
    changes; the explanation is what follows the prefix.  In every other
    case it raises a [ValueError] whose message quotes the trimmed text.
    The three texts of the specification parse as it says. *)
Theorem C5_verdict_parser_prefixes :
  (forall s, exists l r,
     s = l +:+ PyStr.strip s +:+ r
     /\ PyStr.all PyStr.isspace l = true /\ PyStr.all PyStr.isspace r = true
     /\ PyStr.head_is PyStr.isspace (PyStr.strip s) = false
     /\ PyStr.last_is PyStr.isspace (PyStr.strip s) = false)
  /\ (forall s tail,
        parse_verdict s = Return (true, tail)
        <-> exists p, PyStr.strip s = p +:+ tail /\ PyStr.lower p = "acceptable")
  /\ (forall s tail,
        parse_verdict s = Return (false, tail)
        <-> exists p, PyStr.strip s = p +:+ tail /\ PyStr.lower p = "request changes")
  /\ (forall s x,
        parse_verdict s = Raise x
        <-> x = ValueError ("Invalid response: " +:+ PyStr.strip s
                  +:+ ". It must start with either 'acceptable' or 'request changes'")
            /\ forall p rest, PyStr.strip s = p +:+ rest ->
                 PyStr.lower p <> "acceptable" /\ PyStr.lower p <> "request changes")
  /\ parse_verdict "Acceptable, nice work" = Return (true, ", nice work")
  /\ parse_verdict "Request Changes: add tests" = Return (false, ": add tests")
  /\ parse_verdict "Maybe?"
     = Raise (ValueError
         "Invalid response: Maybe?. It must start with either 'acceptable' or 'request changes'").
Proof.
  split; [exact strip_spec|]. split; [|split; [|split]].
  - intros s tail. split.
    + intros H. apply parse_verdict_inv in H. exact H.
    + intros (p & Hs & Hp). by eapply parse_verdict_accept.
  - intros s tail. split.
    + intros H. apply parse_verdict_inv in H. exact H.
    + intros (p & Hs & Hp). by eapply parse_verdict_reject.
  - intros s x. split.
    + intros H. split.
      * unfold parse_verdict in H. repeat case_match; by simplify_eq.
      * intros p rest Hs. split; intros Hp.
        -- by rewrite (parse_verdict_accept s p rest Hs Hp) in H.
        -- by rewrite (parse_verdict_reject s p rest Hs Hp) in H.
    + intros [-> H]. by apply parse_verdict_invalid.
  - by vm_compute.
Qed.

(** ** C6: the pull-request reference *)




(** ** C7: the event posted matches the verdict *)

(** C7.  Whenever [_push_review] posts, the review text parsed to a
    verdict and the link to a reference, the post is the only thing done,
    it goes to the reviews endpoint of that reference, and its body is the
    JSON object whose event is APPROVE exactly when the verdict is accepted,
    REQUEST_CHANGES otherwise, and whose body is the explanation.  For the
    answer and the link of the specification's scenario the post goes to
    [https://api.github.com/repos/foo/bar/pulls/116/reviews] with event
    APPROVE and body " - looks good", also when the whole review runs. *)
Theorem C7_event_matches_verdict :
  (forall w review pr_link req,
     In (HttpPost req) (trace (_push_review w review pr_link)) ->
     exists accepted tail info event,
       parse_verdict review = Return (accepted, tail)
       /\ extract_github_info pr_link = Return (Some info)
       /\ trace (_push_review w review pr_link) = [HttpPost req]
       /\ post_url req
          = "https://api.github.com/repos/" +:+ owner info +:+ "/" +:+ repo info
            +:+ "/pulls/" +:+ str_int (pull_id info) +:+ "/reviews"
       /\ post_data req = json_dumps [("event", event); ("body", tail)]
       /\ (event = "APPROVE" <-> accepted = true)
       /\ (event = "REQUEST_CHANGES" <-> accepted = false))
  /\ (forall w, exists req,
       trace (_push_review w "acceptable - looks good"
                "https://github.com/foo/bar/pull/116") = [HttpPost req]
       /\ post_url req = "https://api.github.com/repos/foo/bar/pulls/116/reviews"
       /\ post_data req = json_dumps [("event", "APPROVE"); ("body", " - looks good")]
       /\ post_data req
          = "{" +:+ dq +:+ "event" +:+ dq +:+ ": " +:+ dq +:+ "APPROVE" +:+ dq +:+ ", "
            +:+ dq +:+ "body" +:+ dq +:+ ": " +:+ dq +:+ " - looks good" +:+ dq +:+ "}")
  /\ (exists req,
       last (trace (review_pr
                      (stub_world diff_ok (always (Return (ok_response "acceptable - looks good"))))
                      "https://github.com/foo/bar/pull/116")) = Some (HttpPost req)
       /\ post_url req = "https://api.github.com/repos/foo/bar/pulls/116/reviews"
       /\ post_data req = json_dumps [("event", "APPROVE"); ("body", " - looks good")]).
Proof.
  split; [|split].
  - intros w review pr_link req.
    unfold _push_review, lift, call, raise, mbind, M_bind, mret, M_ret, trace.
    destruct (extract_github_info pr_link) as [[info|]|x]; cbn [fst];
      destruct (parse_verdict review) as [[accepted tail]|x']; cbn [fst]; try done.
    match goal with |- context [requests_post w ?r] => set (rq := r) end.
    intros H.
    assert (req = rq) as ->.
    { destruct (requests_post w rq) as [resp|x]; cbn in H.
      - destruct (decide (status_code resp ≠ 200)); cbn in H;
          destruct H as [H|[]]; by simplify_eq.
      - destruct H as [H|[]]; by simplify_eq. }
    exists accepted, tail, info, (if accepted then "APPROVE" else "REQUEST_CHANGES").
    split; [done|]. split; [done|]. split.
    { destruct (requests_post w rq) as [resp|x]; cbn; [|done].
      by destruct (decide (status_code resp ≠ 200)). }
    split; [done|]. split; [done|]. by destruct accepted.
  - intros w. eexists. split; [|split; [|split]].
    + unfold _push_review, lift, call, raise, mbind, M_bind, mret, M_ret, trace.
      replace (parse_verdict "acceptable - looks good")
        with (Return (A := bool * string) (true, " - looks good")) by (by vm_compute).
      replace (extract_github_info "https://github.com/foo/bar/pull/116")
        with (Return (Some {| owner := "foo"; repo := "bar"; pull_id := 116 |}))
        by (by vm_compute).
      cbn [fst]. 
      match goal with |- context [requests_post w ?r] =>
        destruct (requests_post w r) as [resp|x]; cbn [fst]; [|reflexivity] end.
      destruct (decide (status_code resp ≠ 200)); reflexivity.
    + by vm_compute.
    + by vm_compute.
    + by vm_compute.
  - eexists. split; [by vm_compute|]. split; by vm_compute.
Qed.

Lemma C7_event_matches_verdict_witness :
  let w := stub_world diff_ok (always (Return (ok_response ""))) in
  let run := _push_review w "Request changes: add tests" "https://github.com/foo/bar/pull/7" in
  exists req,
    In (HttpPost req) (trace run)
    /\ exists accepted tail event,
         parse_verdict "Request changes: add tests" = Return (accepted, tail)
         /\ post_data req = json_dumps [("event", event); ("body", tail)]
         /\ (event = "APPROVE" <-> accepted = true)
         /\ (event = "REQUEST_CHANGES" <-> accepted = false).
Proof.
  intros w run.
  assert (exists req, In (HttpPost req) (trace run)) as [req Hin].
  { eexists. left. reflexivity. }
  exists req. split; [exact Hin|].
  destruct (proj1 C7_event_matches_verdict w "Request changes: add tests"
              "https://github.com/foo/bar/pull/7" req Hin)
    as (accepted & tail & info & event & Hp & _ & _ & _ & Hd & He1 & He2).
  exists accepted, tail, event. done.
Defined.

(** ** C8: a failed fetch stops the review *)

(** C8.  When the fetch of the diff answers with a status other than 200,
    [review_pr] does nothing more: its only event is the fetch, no call
    to the chat endpoint is made, and it raises the [ValueError] whose
    message carries the status code and the body of the answer. *)
Theorem C8_failed_fetch_stops_the_review
    (w : world) (pr_link : string) (resp : http_response) :
  requests_get w (pr_link +:+ ".diff") = Return resp ->
  status_code resp <> 200 ->
  review_pr w pr_link
  = ([HttpGet (pr_link +:+ ".diff")],
     Raise (ValueError ("Invalid response status: " +:+ str_int (status_code resp)
                        +:+ ". Response text is: " +:+ text resp +:+ " ")))
  /\ chat_calls (trace (review_pr w pr_link)) = 0%nat.
Proof.
  intros Hget Hstatus.
  assert (review_pr w pr_link
          = ([HttpGet (pr_link +:+ ".diff")], Raise (invalid_status resp))) as E.
  { unfold review_pr, call, mbind, M_bind. rewrite Hget.
    by rewrite decide_True by done. }
  by rewrite E.
Qed.

Lemma C8_failed_fetch_stops_the_review_witness :
  let w := stub_world {| status_code := 404; text := "Not Found" |}
             (always (Return (ok_response "Acceptable"))) in
  review_pr w "https://github.com/foo/bar/pull/116"
  = ([HttpGet "https://github.com/foo/bar/pull/116.diff"],
     Raise (ValueError "Invalid response status: 404. Response text is: Not Found "))
  /\ chat_calls (trace (review_pr w "https://github.com/foo/bar/pull/116")) = 0%nat.
Proof.
  intros w.
  refine (C8_failed_fetch_stops_the_review w "https://github.com/foo/bar/pull/116"
            {| status_code := 404; text := "Not Found" |} _ _).
  - reflexivity.
  - discriminate.
Defined.
(** ** C9: no word boundary after the prefix *)

(** C9.  Whenever the trimmed text is [p ++ rest] with [p] the word
    acceptable in any case, the verdict is [accepted = true] and the
    explanation is [rest], all of what follows the ten characters of [p],
    whatever [rest] begins with: a letter or a hyphen right after the word
    changes nothing. *)
Theorem C9_acceptable_prefix_of_longer_word :
  (forall s p rest,
     PyStr.strip s = p +:+ rest -> PyStr.lower p = "acceptable" ->
     parse_verdict s = Return (true, rest)
     /\ PyStr.len p = 10%nat
     /\ rest = PyStr.slice_from 10 (PyStr.strip s))
  /\ parse_verdict "Acceptable-ish" = Return (true, "-ish")
  /\ parse_verdict "acceptables" = Return (true, "s").
Proof.
  split; [|by vm_compute].
  intros s p rest Hs Hp. split; [by eapply parse_verdict_accept|].
  assert (PyStr.len p = 10%nat) as Hl by (by rewrite <- lower_len, Hp).
  split; [done|]. by rewrite Hs, <- Hl, slice_from_app.
Qed.

Lemma C9_acceptable_prefix_of_longer_word_witness :
  PyStr.strip "  ACCEPTable-ish " = "ACCEPTable" +:+ "-ish"
  /\ PyStr.lower "ACCEPTable" = "acceptable"
  /\ parse_verdict "  ACCEPTable-ish " = Return (true, "-ish").
Proof.
  split; [reflexivity|]. split; [reflexivity|].
  refine (proj1 (proj1 C9_acceptable_prefix_of_longer_word
                   "  ACCEPTable-ish " "ACCEPTable" "-ish" _ _)); reflexivity.
Defined.

(** ** C10: the explanation keeps its case *)

(** C10.  The explanation is cut out of the trimmed text itself: when the
    parser returns, the trimmed text is [p ++ explanation] for a prefix
    [p] that is one of the two verdict words up to case, so every character
    of the explanation is as the model wrote it.  Only the copy tested for
    the prefix is lowered. *)
Theorem C10_explanation_is_verbatim :
  (forall s accepted explanation,
     parse_verdict s = Return (accepted, explanation) ->
     exists p,
       PyStr.strip s = p +:+ explanation
       /\ PyStr.lower p = (if accepted then "acceptable" else "request changes"))
  /\ parse_verdict "ACCEPTABLE, Fine" = Return (true, ", Fine")
  /\ parse_verdict "REQUEST CHANGES: Add Tests" = Return (false, ": Add Tests").
Proof.
  split; [|by vm_compute]. intros s accepted explanation H.
  by apply parse_verdict_inv.
Qed.

Lemma C10_explanation_is_verbatim_witness :
  parse_verdict "ACCEPTABLE, Fine" = Return (true, ", Fine")
  /\ exists p,
       PyStr.strip "ACCEPTABLE, Fine" = p +:+ ", Fine"
       /\ PyStr.lower p = "acceptable".
Proof.
  split; [reflexivity|].
  refine (proj1 C10_explanation_is_verbatim "ACCEPTABLE, Fine" true ", Fine" _).
  reflexivity.
Defined.

(** * Further properties *)

(** ** The client: how many calls, how much sleep *)



Lemma chat_calls_rounds (tr : list event) (k : nat) :
  beats tr = rounds k -> chat_calls tr = k.
Proof. unfold chat_calls. intros ->. apply attempts_rounds. Qed.


Lemma client_return_beats
    (w : world) (messages : list chat_message) (model : option string)
    (temperature max_tokens : option Z) (s : string) :
  outcome (create_chat_completion w messages model temperature max_tokens) = Return s ->
  beats (trace (create_chat_completion w messages model temperature max_tokens))
  = rounds num_retries.
Proof.
  intros Hr.
  destruct (client_beats w messages model temperature max_tokens)
    as [[B _]|(k & x & Hk & _ & _ & _ & Ho & B)]; [done|].
  rewrite Ho in Hr. discriminate.
Qed.

(** X2.  The client has no early exit: whenever a call returns a value it
    has called the endpoint ten times and slept after each call, 4092
    seconds in all, however early the endpoint answered. *)
Theorem client_return_takes_ten_calls
    (w : world) (messages : list chat_message) (model : option string)
    (temperature max_tokens : option Z) (s : string) :
  let run := create_chat_completion w messages model temperature max_tokens in
  outcome run = Return s ->
  beats (trace run) = rounds num_retries
  /\ chat_calls (trace run) = 10%nat
  /\ sleeps (trace run) = [4; 8; 16; 32; 64; 128; 256; 512; 1024; 2048]
  /\ total_sleep (trace run) = 4092.
Proof.
  intros run Hr. pose proof (client_return_beats _ _ _ _ _ _ Hr) as B.
  fold run in B. split; [done|].
  rewrite (chat_calls_rounds _ _ B). unfold total_sleep.
  rewrite (sleeps_rounds _ _ B). by vm_compute.
Qed.

Lemma client_return_takes_ten_calls_witness :
  let run := run_chat (fail_then_ok 0 (OpenAIError rate_limit_error) "Acceptable") in
  outcome run = Return "Acceptable"
  /\ chat_calls (trace run) = 10%nat
  /\ total_sleep (trace run) = 4092.
Proof.
  intros run.
  assert (outcome run = Return "Acceptable") as H by reflexivity.
  split; [exact H|].
  destruct (client_return_takes_ten_calls
              (stub_world diff_ok (fail_then_ok 0 (OpenAIError rate_limit_error) "Acceptable"))
              [] (Some "gpt-4") None None "Acceptable" H) as (_ & Hc & _ & Ht).
  split; [exact Hc|exact Ht].
Defined.

(** ** The client: which answer is returned *)

Lemma absorb_all_app (stub : nat -> result chat_response) (l1 l2 : list nat)
    (st : loop_state) :
  absorb_all stub (l1 ++ l2) st = absorb_all stub l2 (absorb_all stub l1 st).
Proof. unfold absorb_all. apply fold_left_app. Qed.

(** The answer kept by the loop is that of the last answered attempt. *)
Lemma response_last_answer (stub : nat -> result chat_response)
    (k n : nat) (r : chat_response) :
  (k < n)%nat -> stub k = Return r ->
  (forall j, (k < j < n)%nat -> is_answer (stub j) = false) ->
  response (absorb_all stub (seq 0 n) loop_init) = Some r.
Proof.
  intros Hk Er Hn.
  replace n with (S k + (n - S k))%nat by lia.
  rewrite seq_app, absorb_all_app, response_absorb_all_none.
  - rewrite seq_S. by apply response_absorb_all_last.
  - intros j Hj%elem_of_seq. apply Hn. lia.
Qed.

(** X3.  When no attempt raises, the value returned is read from the
    answer of the last answered attempt, whatever earlier attempts answered:
    it is the content of the message of that answer's first choice.  An
    answer without choices ends the call in an [IndexError], a first choice
    whose message has no content in a [KeyError]. *)
Theorem client_returns_last_answer
    (w : world) (messages : list chat_message) (model : option string)
    (temperature max_tokens : option Z) (k : nat) (r : chat_response) :
  let req := chat_request_of w messages model (default_temperature temperature) max_tokens in
  let stub := fun k => ChatCompletion_create w k req in
  let run := create_chat_completion w messages model temperature max_tokens in
  (forall j, (j < num_retries)%nat -> continues j (stub j) = true) ->
  (k < num_retries)%nat ->
  stub k = Return r ->
  (forall j, (k < j < num_retries)%nat -> is_answer (stub j) = false) ->
  (choices r = [] -> outcome run = Raise (IndexError "list index out of range"))
  /\ (forall c cs, choices r = c :: cs -> message c !! "content" = None ->
        outcome run = Raise (KeyError "content"))
  /\ (forall c cs s, choices r = c :: cs -> message c !! "content" = Some s ->
        outcome run = Return s).
Proof.
  intros req stub run Hall Hk Er Hlast.
  destruct (retry_loop_all w req Hall) as (tr & E & _ & _).
  assert (response (absorb_all stub (seq 0 num_retries) loop_init) = Some r) as Hresp.
  { by apply (response_last_answer stub k). }
  assert (outcome run
          = match choices r with
            | [] => Raise (IndexError "list index out of range")
            | c :: _ => match message c !! "content" with
                        | Some s => Return s
                        | None => Raise (KeyError "content")
                        end
            end) as Ho.
  { unfold run. rewrite (client_return _ _ _ _ _ _ _ E).
    unfold outcome at 1. cbn [snd]. unfold first_content. fold stub.
    rewrite Hresp. unfold outcome, mbind, M_bind, mret, M_ret, raise. cbn.
    destruct (choices r) as [|c cs]; [done|]. by destruct (message c !! "content"). }
  rewrite Ho. split; [by intros ->|]. split.
  - by intros c cs -> ->.
  - by intros c cs s -> ->.
Qed.

Lemma client_returns_last_answer_witness :
  let chat := fun k => if decide (k = 2%nat) then Return (ok_response "Acceptable")
                       else if decide (k = 5%nat) then Return (ok_response "Request changes")
                       else Raise (OpenAIError rate_limit_error) in
  (forall j, (j < num_retries)%nat -> continues j (chat j) = true)
  /\ chat 5%nat = Return (ok_response "Request changes")
  /\ (forall j, (5 < j < num_retries)%nat -> is_answer (chat j) = false)
  /\ outcome (run_chat chat) = Return "Request changes".
Proof.
  intros chat.
  assert (forall j, (j < num_retries)%nat -> continues j (chat j) = true) as Hall.
  { intros j _. unfold chat. by repeat case_decide. }
  assert (forall j, (5 < j < num_retries)%nat -> is_answer (chat j) = false) as Hlast.
  { intros j Hj. unfold chat. rewrite !decide_False by lia. done. }
  split; [exact Hall|]. split; [reflexivity|]. split; [exact Hlast|].
  refine (proj2 (proj2 (client_returns_last_answer (stub_world diff_ok chat) []
            (Some "gpt-4") None None 5 (ok_response "Request changes") Hall _ _ Hlast))
            _ [] "Request changes" _ _).
  - unfold num_retries. lia.
  - reflexivity.
  - reflexivity.
  - reflexivity.
Defined.

(** ** The client: the warning *)

Lemma any_rate_limit_S (stub : nat -> result chat_response) (k : nat) :
  any_rate_limit stub (seq 0 (S k))
  = any_rate_limit stub (seq 0 k) || is_rate_limit (stub k).
Proof.
  unfold any_rate_limit. rewrite seq_S, existsb_app. simpl.
  by rewrite orb_false_r.
Qed.

Lemma stops_not_rate_limit (k : nat) (o : result chat_response) :
  continues k o = false -> is_rate_limit o = false.
Proof.
  unfold continues. destruct (is_rate_limit o); [|done].
  by rewrite orb_true_r.
Qed.

(** X4.  The warning is logged at most once in a call, and it is logged
    exactly when one of the calls made to the endpoint was rate-limited. *)
Theorem client_warns_iff_rate_limited
    (w : world) (messages : list chat_message) (model : option string)
    (temperature max_tokens : option Z) :
  let req := chat_request_of w messages model (default_temperature temperature) max_tokens in
  let stub := fun k => ChatCompletion_create w k req in
  let run := create_chat_completion w messages model temperature max_tokens in
  warnings (trace run)
  = (if any_rate_limit stub (seq 0 (chat_calls (trace run))) then 1 else 0)%nat.
Proof.
  intros req stub run.
  destruct (retry_loop_cases w req)
    as [(tr & E & _ & B & W)|(k & x & tr & Hk & _ & Hs & _ & E & B & W)].
  - assert (trace run = [opening_log model (default_temperature temperature) max_tokens]
              ++ tr ++ trace (first_content
                   (absorb_all stub (seq 0 num_retries) loop_init))) as ->.
    { unfold run. by rewrite (client_return _ _ _ _ _ _ _ E). }
    rewrite warnings_opening, warnings_closing, W.
    rewrite (chat_calls_rounds _ num_retries); [done|].
    by rewrite beats_opening, beats_closing.
  - assert (trace run = [opening_log model (default_temperature temperature) max_tokens]
              ++ tr) as ->.
    { unfold run. by rewrite (client_raise _ _ _ _ _ _ _ E). }
    rewrite warnings_opening, W.
    rewrite (chat_calls_rounds_attempt _ k) by (by rewrite beats_opening).
    rewrite any_rate_limit_S. fold stub.
    rewrite (stops_not_rate_limit k (stub k)) by exact Hs.
    by rewrite orb_false_r.
Qed.

(** ** The client: what it sends and what it leaves alone *)

Lemma chat_requests_app (t1 t2 : list event) :
  chat_requests (t1 ++ t2) = chat_requests t1 ++ chat_requests t2.
Proof. apply omap_app. Qed.

Lemma chat_requests_length (tr : list event) :
  length (chat_requests tr) = chat_calls tr.
Proof.
  unfold chat_requests, chat_calls, beats.
  induction tr as [|[] tr IH]; simpl; auto.
Qed.

Section ClientEvents.
Context (w : world) (req : chat_request).

(** One attempt sends the request once and does nothing but call the
    endpoint, log and sleep. *)
Lemma attempt_events (st : loop_state) (k : nat) :
  chat_requests (trace (attempt_body w req st k)) = [req]
  /\ forallb is_client_event (trace (attempt_body w req st k)) = true.
Proof.
  unfold attempt_body, attempt_call, mbind, M_bind, mret, M_ret, emit, raise, trace.
  destruct (ChatCompletion_create w k req) as [r|x]; [done|].
  repeat case_match; simplify_eq; done.
Qed.

Lemma loop_events (l : list nat) (st : loop_state) :
  (exists n, chat_requests (trace (for_each (attempt_body w req) l st)) = replicate n req)
  /\ forallb is_client_event (trace (for_each (attempt_body w req) l st)) = true.
Proof.
  revert st. induction l as [|k l IH]; intros st.
  - split; [by exists 0%nat|done].
  - simpl. destruct (attempt_events st k) as [R F].
    destruct (attempt_body w req st k) as [t1 [st'|x]]; unfold trace in *; cbn [fst] in *.
    + unfold mbind, M_bind. destruct (IH st') as [[n Rn] Fn].
      destruct (for_each (attempt_body w req) l st') as [t2 r2]. cbn [fst] in *.
      rewrite chat_requests_app, forallb_app, R, Rn, F, Fn.
      split; [by exists (S n)|done].
    + unfold mbind, M_bind. cbn [fst]. rewrite R, F. split; [by exists 1%nat|done].
Qed.

End ClientEvents.

Lemma client_events (w : world) (messages : list chat_message)
    (model : option string) (temperature max_tokens : option Z) :
  let req := chat_request_of w messages model (default_temperature temperature) max_tokens in
  let run := create_chat_completion w messages model temperature max_tokens in
  chat_requests (trace run) = replicate (chat_calls (trace run)) req
  /\ forallb is_client_event (trace run) = true.
Proof.
  intros req run.
  assert ((exists n, chat_requests (trace run) = replicate n req)
          /\ forallb is_client_event (trace run) = true) as [[n Hn] F].
  { destruct (loop_events w req (seq 0 num_retries) loop_init) as [[n Rn] Fn].
    fold (retry_loop w req) in Rn, Fn.
    destruct (retry_loop w req) as [tr [st|x]] eqn:E; unfold trace in Rn, Fn; cbn [fst] in *.
    - unfold run. rewrite (client_return _ _ _ _ _ _ _ E). unfold trace at 1 3. cbn [fst].
      rewrite !chat_requests_app, !forallb_app, Rn, Fn.
      assert (chat_requests (trace (first_content st)) = []
              /\ forallb is_client_event (trace (first_content st)) = true) as [-> ->].
      { unfold first_content, mbind, M_bind, mret, M_ret, emit, raise, trace.
        destruct (response st) as [[[|c cs]]|]; simpl; try done.
        by destruct (message c !! "content"). }
      rewrite app_nil_r. split; [by exists n|done].
    - unfold run. rewrite (client_raise _ _ _ _ _ _ _ E). unfold trace. cbn [fst].
      rewrite !chat_requests_app, !forallb_app, Rn, Fn. split; [by exists n|done]. }
  split; [|done]. rewrite Hn. f_equal.
  by rewrite <- chat_requests_length, Hn, length_replicate.
Qed.

Lemma client_events_quiet (tr : list event) :
  forallb is_client_event tr = true ->
  gets tr = [] /\ posts tr = [] /\ prints tr = [].
Proof.
  unfold gets, posts, prints.
  induction tr as [|ev tr IH]; [done|]. intros H. simpl in H.
  apply andb_prop in H as [Hev Htr]. destruct (IH Htr) as (Hg & Hp & Hr).
  destruct ev; simpl in *; done.
Qed.

(** X5.  Every call that [_process_diff] makes to the chat endpoint carries
    the same request: model gpt-4, temperature 0, no token limit, the API
    key read from the environment (or none), and two messages, the system
    prompt and then the diff as the user's message.  Reviewing a diff does
    nothing else on the network: it fetches nothing, posts nothing and
    prints nothing. *)
Theorem process_diff_sends_one_request (w : world) (diff : string) :
  let run := _process_diff w diff in
  chat_requests (trace run) = replicate (chat_calls (trace run)) (review_request w diff)
  /\ gets (trace run) = [] /\ posts (trace run) = [] /\ prints (trace run) = [].
Proof.
  intros run.
  destruct (client_events w [ {| role := "system"; content := system_prompt |};
                              {| role := "user"; content := diff |} ]
              (Some "gpt-4") (Some 0) None) as [R F].
  split; [exact R|]. by apply client_events_quiet.
Qed.

(** ** [_push_review]: before and after the post *)

Lemma push_review_unfold (w : world) (review pr_link : string) :
  _push_review w review pr_link
  = match extract_github_info pr_link with
    | Raise x => ([], Raise x)
    | Return found =>
        match parse_verdict review with
        | Raise x => ([], Raise x)
        | Return (accepted, tail) =>
            match found with
            | None => ([], Raise (TypeError "'NoneType' object is not subscriptable"))
            | Some info =>
                let req := review_post w accepted tail info in
                match requests_post w req with
                | Raise x => ([HttpPost req], Raise x)
                | Return resp =>
                    if decide (status_code resp = 200) then ([HttpPost req], Return tt)
                    else ([HttpPost req], Raise (invalid_status resp))
                end
            end
        end
    end.
Proof.
  unfold _push_review, lift, call, raise, mbind, M_bind, mret, M_ret.
  destruct (extract_github_info pr_link) as [found|x]; [|done].
  destruct (parse_verdict review) as [[accepted tail]|x]; [|done].
  destruct found as [info|]; [|done].
  cbv beta iota zeta. fold (reviews_url info). fold (review_headers w).
  fold (review_post w accepted tail info).
  destruct (requests_post w (review_post w accepted tail info)) as [resp|x]; [|done].
  cbv beta iota zeta.
  destruct (decide (status_code resp ≠ 200)), (decide (status_code resp = 200)); done.
Qed.

(** X6.  [_push_review] gives up before touching the network exactly when
    the link has a number too long to convert, the review text has no
    verdict, or the link is not a pull-request link.  The three are reported
    in this order: the [ValueError] of the conversion whatever the text, then
    the [ValueError] of a text without verdict whatever else the link is,
    and for a link that does not match, under a text that parses, the
    [TypeError] of subscripting [None]. *)
Theorem push_review_gives_up_before_posting (w : world) (review pr_link : string) :
  (trace (_push_review w review pr_link) = []
   <-> (exists x, extract_github_info pr_link = Raise x)
       \/ (exists x, parse_verdict review = Raise x)
       \/ extract_github_info pr_link = Return None)
  /\ (forall x, extract_github_info pr_link = Raise x ->
        _push_review w review pr_link = ([], Raise x))
  /\ (forall found x, extract_github_info pr_link = Return found ->
        parse_verdict review = Raise x ->
        _push_review w review pr_link = ([], Raise x))
  /\ (forall v, parse_verdict review = Return v ->
        extract_github_info pr_link = Return None ->
        _push_review w review pr_link
        = ([], Raise (TypeError "'NoneType' object is not subscriptable"))).
Proof.
  rewrite push_review_unfold. split; [|split; [|split]].
  - destruct (extract_github_info pr_link) as [[info|]|x].
    + destruct (parse_verdict review) as [[accepted tail]|x].
      * cbv zeta. destruct (requests_post w _) as [resp|x]; [destruct (decide _)|];
          (split; [done|]); by intros [[? ?]|[[? ?]|?]].
      * split; [|done]. intros _. right. left. by exists x.
    + split; [|by destruct (parse_verdict review) as [[]|]]. intros _. by right; right.
    + split; [|done]. intros _. left. by exists x.
  - by intros x ->.
  - by intros found x -> ->.
  - intros [accepted tail] -> ->. done.
Qed.

(** X7.  When the text has a verdict and the link matches, [_push_review]
    posts once and does not retry.  It returns exactly when the answer has
    status 200; any other status ends in the [ValueError] that carries the
    status and the text of the answer, and an exception of the post itself
    propagates unchanged. *)
Theorem push_review_outcome_follows_status
    (w : world) (review pr_link : string)
    (accepted : bool) (tail : string) (info : github_info) :
  let req := review_post w accepted tail info in
  let run := _push_review w review pr_link in
  parse_verdict review = Return (accepted, tail) ->
  extract_github_info pr_link = Return (Some info) ->
  trace run = [HttpPost req]
  /\ (outcome run = Return tt
      <-> exists resp, requests_post w req = Return resp /\ status_code resp = 200)
  /\ (forall resp, requests_post w req = Return resp -> status_code resp <> 200 ->
        outcome run
        = Raise (ValueError ("Invalid response status: " +:+ str_int (status_code resp)
                             +:+ ". Response text is: " +:+ text resp +:+ " ")))
  /\ (forall x, requests_post w req = Raise x -> outcome run = Raise x).
Proof.
  intros req run Hp He. unfold run. rewrite push_review_unfold, Hp, He.
  cbv zeta. fold req. destruct (requests_post w req) as [resp|x].
  - destruct (decide (status_code resp = 200)) as [Hs|Hs]; cbn.
    + split; [done|]. split; [split; [by exists resp|done]|]. split; [|done].
      intros ? [= <-] ?. done.
    + split; [done|]. split.
      * split; [done|]. by intros (? & [= <-] & ?).
      * split; [|done]. by intros ? [= <-] _.
  - cbn. split; [done|]. split; [split; [done|by intros (? & ? & ?)]|].
    split; [done|]. by intros ? [= <-].
Qed.

Lemma push_review_outcome_follows_status_witness :
  let w := {| requests_get := fun _ => Return diff_ok;
              requests_post := fun _ => Return {| status_code := 422; text := "Unprocessable" |};
              ChatCompletion_create := fun _ _ => Return (ok_response "Acceptable");
              os_getenv := fun _ => None |} in
  let run := _push_review w "Acceptable." "https://github.com/foo/bar/pull/116" in
  parse_verdict "Acceptable." = Return (true, ".")
  /\ length (posts (trace run)) = 1%nat
  /\ outcome run
     = Raise (ValueError "Invalid response status: 422. Response text is: Unprocessable ").
Proof.
  intros w run. split; [reflexivity|].
  destruct (push_review_outcome_follows_status w "Acceptable."
              "https://github.com/foo/bar/pull/116" true "."
              {| owner := "foo"; repo := "bar"; pull_id := 116 |} eq_refl eq_refl)
    as (Ht & _ & Hs & _).
  split.
  - unfold run. by rewrite Ht.
  - exact (Hs {| status_code := 422; text := "Unprocessable" |} eq_refl ltac:(discriminate)).
Defined.



(** ** [review_pr]: the order of things *)

Lemma review_pr_unfold (w : world) (pr_link : string) :
  review_pr w pr_link
  = let fetch := HttpGet (pr_link +:+ ".diff") in
    match requests_get w (pr_link +:+ ".diff") with
    | Raise x => ([fetch], Raise x)
    | Return resp =>
        if decide (status_code resp = 200) then
          match _process_diff w (text resp) with
          | (t, Raise x) => ([fetch] ++ t, Raise x)
          | (t, Return s) =>
              match _push_review w s pr_link with
              | (t', Raise x) =>
                  ([fetch] ++ t ++ [Print ("diff response: " +:+ s)] ++ t', Raise x)
              | (t', Return _) =>
                  ([fetch] ++ t ++ [Print ("diff response: " +:+ s)] ++ t',
                   Return "Successfully reviewed PR.")
              end
          end
        else ([fetch], Raise (invalid_status resp))
    end.
Proof.
  unfold review_pr, call, raise, emit, mbind, M_bind, mret, M_ret.
  cbv beta iota zeta.
  destruct (requests_get w (pr_link +:+ ".diff")) as [resp|x]; [|reflexivity].
  destruct (decide (status_code resp = 200)) as [Hs|Hs].
  - rewrite decide_False by (intros H; exact (H Hs)).
    destruct (_process_diff w (text resp)) as [t [s|x]]; [|reflexivity].
    destruct (_push_review w s pr_link) as [t' [[]|x]];
      rewrite ?app_nil_r; reflexivity.
  - rewrite decide_True by exact Hs. reflexivity.
Qed.

Lemma gets_app (t1 t2 : list event) : gets (t1 ++ t2) = gets t1 ++ gets t2.
Proof. apply omap_app. Qed.
Lemma posts_app (t1 t2 : list event) : posts (t1 ++ t2) = posts t1 ++ posts t2.
Proof. apply omap_app. Qed.
Lemma prints_app (t1 t2 : list event) : prints (t1 ++ t2) = prints t1 ++ prints t2.
Proof. apply omap_app. Qed.

Lemma process_diff_quiet (w : world) (diff : string) :
  gets (trace (_process_diff w diff)) = []
  /\ posts (trace (_process_diff w diff)) = []
  /\ prints (trace (_process_diff w diff)) = [].
Proof.
  apply client_events_quiet.
  exact (proj2 (client_events w [ {| role := "system"; content := system_prompt |};
                                  {| role := "user"; content := diff |} ]
                  (Some "gpt-4") (Some 0) None)).
Qed.

(** What [_push_review] leaves in the trace: nothing, or its one post,
    which then is the post of the verdict and the reference. *)
Lemma push_review_trace (w : world) (review pr_link : string) :
  trace (_push_review w review pr_link) = []
  \/ exists accepted tail info,
       parse_verdict review = Return (accepted, tail)
       /\ extract_github_info pr_link = Return (Some info)
       /\ trace (_push_review w review pr_link)
          = [HttpPost (review_post w accepted tail info)]
       /\ (forall v, outcome (_push_review w review pr_link) = Return v ->
             exists resp, requests_post w (review_post w accepted tail info) = Return resp
                          /\ status_code resp = 200).
Proof.
  rewrite push_review_unfold.
  destruct (extract_github_info pr_link) as [[info|]|x];
    destruct (parse_verdict review) as [[accepted tail]|x']; try (by left).
  right. exists accepted, tail, info. split; [done|]. split; [done|]. cbv zeta.
  destruct (requests_post w (review_post w accepted tail info)) as [resp|x];
    [destruct (decide (status_code resp = 200))|]; unfold trace, outcome; cbn [fst snd].
  - split; [done|]. intros _ _. by exists resp.
  - split; [done|]. intros v H. discriminate H.
  - split; [done|]. intros v H. discriminate H.
Qed.


Lemma process_diff_return_beats (w : world) (diff s : string) :
  outcome (_process_diff w diff) = Return s ->
  beats (trace (_process_diff w diff)) = rounds num_retries.
Proof.
  exact (client_return_beats w [ {| role := "system"; content := system_prompt |};
                                 {| role := "user"; content := diff |} ]
           (Some "gpt-4") (Some 0) None s).
Qed.

(** X9.  [review_pr] begins by fetching the diff, at the link with [.diff]
    appended, and fetches nothing else.  It posts at most one review, and a
    review posted is the last thing it does. *)
Theorem review_pr_fetches_first_posts_last (w : world) (pr_link : string) :
  let tr := trace (review_pr w pr_link) in
  head tr = Some (HttpGet (pr_link +:+ ".diff"))
  /\ gets tr = [pr_link +:+ ".diff"]
  /\ (posts tr = []
      \/ exists req, posts tr = [req] /\ last tr = Some (HttpPost req)).
Proof.
  rewrite review_pr_unfold. cbv zeta.
  destruct (requests_get w (pr_link +:+ ".diff")) as [resp|x].
  2:{ split; [reflexivity|]. split; [reflexivity|]. left. reflexivity. }
  destruct (decide (status_code resp = 200)).
  2:{ split; [reflexivity|]. split; [reflexivity|]. left. reflexivity. }
  destruct (process_diff_quiet w (text resp)) as (G & P & _).
  destruct (_process_diff w (text resp)) as [t [s|x]];
    unfold trace in G, P; cbn [fst] in G, P.
  - destruct (push_review_trace w s pr_link)
      as [Ht|(accepted & tail & info & _ & _ & Ht & _)];
      destruct (_push_review w s pr_link) as [t' r'];
      unfold trace in Ht; cbn [fst] in Ht; subst t';
      destruct r' as [[]|x]; unfold trace; cbn [fst];
      (split; [reflexivity|]); rewrite !gets_app, !posts_app, G, P;
      (split; [reflexivity|]).
    + left. reflexivity.
    + left. reflexivity.
    + right. eexists. split; [reflexivity|]. rewrite !app_assoc. apply last_snoc.
    + right. eexists. split; [reflexivity|]. rewrite !app_assoc. apply last_snoc.
  - unfold trace; cbn [fst]. split; [reflexivity|].
    rewrite gets_app, posts_app, G, P. split; [reflexivity|]. left. reflexivity.
Qed.

(** X10.  A review is posted only for a diff that was fetched with status
    200 and reviewed: the chat client returned a text, after its ten calls,
    the text was printed, it begins with a verdict, the link gives a
    reference, and the review posted is that verdict for that reference. *)
Theorem review_pr_posts_only_a_reviewed_diff
    (w : world) (pr_link : string) (req : post_request) :
  In req (posts (trace (review_pr w pr_link))) ->
  exists resp s accepted tail info,
    requests_get w (pr_link +:+ ".diff") = Return resp
    /\ status_code resp = 200
    /\ outcome (_process_diff w (text resp)) = Return s
    /\ chat_calls (trace (review_pr w pr_link)) = 10%nat
    /\ prints (trace (review_pr w pr_link)) = ["diff response: " +:+ s]
    /\ parse_verdict s = Return (accepted, tail)
    /\ extract_github_info pr_link = Return (Some info)
    /\ req = review_post w accepted tail info.
Proof.
  rewrite review_pr_unfold. cbv zeta.
  destruct (requests_get w (pr_link +:+ ".diff")) as [resp|x].
  2:{ intros []. }
  destruct (decide (status_code resp = 200)) as [Hs|Hs].
  2:{ intros []. }
  destruct (process_diff_quiet w (text resp)) as (_ & P & R).
  pose proof (process_diff_return_beats w (text resp)) as B.
  destruct (_process_diff w (text resp)) as [t [s|x]] eqn:Epd;
    unfold trace, outcome in P, R, B; cbn [fst snd] in P, R, B.
  - specialize (B s eq_refl).
    destruct (push_review_trace w s pr_link)
      as [Ht|(accepted & tail & info & Hp & He & Ht & _)];
      destruct (_push_review w s pr_link) as [t' r'];
      unfold trace in Ht; cbn [fst] in Ht; subst t'.
    + destruct r' as [[]|x]; unfold trace; cbn [fst];
        rewrite !posts_app, P; intros [].
    + assert (forall r : result string,
        In req (posts (trace ([HttpGet (pr_link +:+ ".diff")] ++ t
                 ++ [Print ("diff response: " +:+ s)]
                 ++ [HttpPost (review_post w accepted tail info)], r))) ->
        chat_calls (trace ([HttpGet (pr_link +:+ ".diff")] ++ t
                 ++ [Print ("diff response: " +:+ s)]
                 ++ [HttpPost (review_post w accepted tail info)], r)) = 10%nat
        /\ prints (trace ([HttpGet (pr_link +:+ ".diff")] ++ t
                 ++ [Print ("diff response: " +:+ s)]
                 ++ [HttpPost (review_post w accepted tail info)], r))
           = ["diff response: " +:+ s]
        /\ req = review_post w accepted tail info) as H.
      { intros r. unfold trace. cbn [fst].
        rewrite !posts_app, !prints_app, P, R. intros [<-|[]].
        split; [|split; reflexivity].
        apply (chat_calls_rounds _ 10). rewrite !beats_app, B. reflexivity. }
      destruct r' as [[]|x]; intros Hin; destruct (H _ Hin) as (Hc & Hpr & Hr);
        exists resp, s, accepted, tail, info; repeat split;
        first [assumption|reflexivity|by rewrite Epd].
  - unfold trace; cbn [fst]. rewrite posts_app, P. intros [].
Qed.

Lemma review_pr_posts_only_a_reviewed_diff_witness :
  let w := stub_world diff_ok (always (Return (ok_response "Request changes: add tests"))) in
  let pr_link := "https://github.com/foo/bar/pull/116" in
  exists req,
    In req (posts (trace (review_pr w pr_link)))
    /\ exists resp s accepted tail info,
         requests_get w (pr_link +:+ ".diff") = Return resp
         /\ status_code resp = 200
         /\ outcome (_process_diff w (text resp)) = Return s
         /\ chat_calls (trace (review_pr w pr_link)) = 10%nat
         /\ prints (trace (review_pr w pr_link)) = ["diff response: " +:+ s]
         /\ parse_verdict s = Return (accepted, tail)
         /\ extract_github_info pr_link = Return (Some info)
         /\ req = review_post w accepted tail info.
Proof.
  intros w pr_link.
  assert (exists req, In req (posts (trace (review_pr w pr_link)))) as [req Hin].
  { eexists. vm_compute. left. reflexivity. }
  exists req. split; [exact Hin|].
  exact (review_pr_posts_only_a_reviewed_diff w pr_link req Hin).
Defined.

(** X11.  [review_pr] returns nothing but its success line, and returns it
    only when a review was posted and answered with status 200; until then
    every failure ends the run. *)
Theorem review_pr_returns_after_accepted_post
    (w : world) (pr_link : string) (v : string) :
  outcome (review_pr w pr_link) = Return v ->
  v = "Successfully reviewed PR."
  /\ exists req resp,
       posts (trace (review_pr w pr_link)) = [req]
       /\ last (trace (review_pr w pr_link)) = Some (HttpPost req)
       /\ requests_post w req = Return resp
       /\ status_code resp = 200.
Proof.
  rewrite review_pr_unfold. cbv zeta.
  destruct (requests_get w (pr_link +:+ ".diff")) as [resp|x].
  2:{ intros H. discriminate H. }
  destruct (decide (status_code resp = 200)) as [Hs|Hs].
  2:{ intros H. discriminate H. }
  destruct (process_diff_quiet w (text resp)) as (_ & P & _).
  destruct (_process_diff w (text resp)) as [t [s|x]];
    unfold trace in P; cbn [fst] in P.
  2:{ intros H. discriminate H. }
  destruct (push_review_trace w s pr_link)
    as [Ht|(accepted & tail & info & _ & _ & Ht & Hok)].
  - pose proof (push_review_unfold w s pr_link) as U.
    destruct (_push_review w s pr_link) as [t' r'].
    unfold trace in Ht; cbn [fst] in Ht; subst t'.
    destruct r' as [[]|x]; [|intros H; discriminate H].
    exfalso.
    destruct (extract_github_info pr_link) as [[info|]|x];
      destruct (parse_verdict s) as [[accepted tail]|x']; try discriminate U.
    cbv zeta in U. destruct (requests_post w _) as [resp'|x];
      [destruct (decide _)|]; discriminate U.
  - destruct (_push_review w s pr_link) as [t' r'].
    unfold trace, outcome in Ht, Hok; cbn [fst snd] in Ht, Hok; subst t'.
    destruct r' as [[]|x]; [|intros H; discriminate H].
    destruct (Hok tt eq_refl) as (presp & Hpost & Hst).
    intros [= <-]. split; [reflexivity|].
    exists (review_post w accepted tail info), presp.
    unfold trace; cbn [fst]. rewrite !posts_app, P.
    split; [reflexivity|]. split; [|split; assumption].
    rewrite !app_assoc. apply last_snoc.
Qed.

Lemma review_pr_returns_after_accepted_post_witness :
  let w := stub_world diff_ok (always (Return (ok_response "Acceptable"))) in
  outcome (review_pr w "https://github.com/foo/bar/pull/116")
  = Return "Successfully reviewed PR."
  /\ exists req resp,
       posts (trace (review_pr w "https://github.com/foo/bar/pull/116")) = [req]
       /\ requests_post w req = Return resp
       /\ status_code resp = 200.
Proof.
  intros w.
  assert (outcome (review_pr w "https://github.com/foo/bar/pull/116")
          = Return "Successfully reviewed PR.") as H by (by vm_compute).
  split; [exact H|].
  destruct (review_pr_returns_after_accepted_post w _ _ H)
    as (_ & req & resp & Hp & _ & Hr & Hs).
  exists req, resp. split; [exact Hp|]. split; [exact Hr|exact Hs].
Defined.

(** X12.  [review_pr] adds nothing to a failure and handles none: an
    exception of the fetch, of the chat client or of the posting ends the
    run as it is.  When the chat client fails nothing is printed and no
    review is posted. *)
Theorem review_pr_propagates_failures (w : world) (pr_link : string) :
  (forall x, requests_get w (pr_link +:+ ".diff") = Raise x ->
     review_pr w pr_link = ([HttpGet (pr_link +:+ ".diff")], Raise x))
  /\ (forall resp x,
       requests_get w (pr_link +:+ ".diff") = Return resp ->
       status_code resp = 200 ->
       outcome (_process_diff w (text resp)) = Raise x ->
       outcome (review_pr w pr_link) = Raise x
       /\ prints (trace (review_pr w pr_link)) = []
       /\ posts (trace (review_pr w pr_link)) = [])
  /\ (forall resp s x,
       requests_get w (pr_link +:+ ".diff") = Return resp ->
       status_code resp = 200 ->
       outcome (_process_diff w (text resp)) = Return s ->
       outcome (_push_review w s pr_link) = Raise x ->
       outcome (review_pr w pr_link) = Raise x
       /\ prints (trace (review_pr w pr_link)) = ["diff response: " +:+ s]).
Proof.
  rewrite review_pr_unfold. cbv zeta. split; [|split].
  - intros x ->. reflexivity.
  - intros resp x -> Hs. rewrite decide_True by exact Hs.
    destruct (process_diff_quiet w (text resp)) as (_ & P & R).
    destruct (_process_diff w (text resp)) as [t [s|x']];
      unfold trace, outcome in *; cbn [fst snd] in *; intros E; [discriminate E|].
    injection E as ->. split; [reflexivity|].
    by rewrite prints_app, posts_app, P, R.
  - intros resp s x -> Hs. rewrite decide_True by exact Hs.
    destruct (process_diff_quiet w (text resp)) as (_ & _ & R).
    destruct (_process_diff w (text resp)) as [t [s'|x']];
      unfold trace, outcome in R |- *; cbn [fst snd] in R |- *; intros E;
      [injection E as ->|discriminate E].
    destruct (push_review_trace w s pr_link)
      as [Ht|(accepted & tail & info & _ & _ & Ht & _)];
      destruct (_push_review w s pr_link) as [t' r'];
      unfold trace in Ht; cbn [fst] in Ht; subst t';
      intros Hr; unfold outcome in Hr; cbn [snd] in Hr; subst r';
      unfold trace, outcome; cbn [fst snd];
      (split; [reflexivity|]); rewrite !prints_app, R; reflexivity.
Qed.

Lemma review_pr_propagates_failures_witness :
  let w := stub_world diff_ok (always (Raise (OpenAIError (api_error (Some 500))))) in
  outcome (_process_diff w (text diff_ok)) = Raise (OpenAIError (api_error (Some 500)))
  /\ outcome (review_pr w "https://github.com/foo/bar/pull/116")
     = Raise (OpenAIError (api_error (Some 500)))
  /\ posts (trace (review_pr w "https://github.com/foo/bar/pull/116")) = [].
Proof.
  intros w.
  assert (outcome (_process_diff w (text diff_ok))
          = Raise (OpenAIError (api_error (Some 500)))) as H by (by vm_compute).
  split; [exact H|].
  destruct (proj1 (proj2 (review_pr_propagates_failures w
              "https://github.com/foo/bar/pull/116"))
              diff_ok (OpenAIError (api_error (Some 500))) eq_refl eq_refl H)
    as (Ho & _ & Hp).
  split; [exact Ho|exact Hp].
Defined.

(** ** The verdict and its explanation *)

Section Trimming.
Import PyStr.

Lemma lstrip_all_space (r : string) : all isspace r = true -> lstrip r = "".
Proof.
  induction r as [|c r IH]; [done|]. simpl. intros [Hc Hr]%andb_prop.
  rewrite Hc. by apply IH.
Qed.

Lemma rstrip_all_space (r : string) : all isspace r = true -> rstrip r = "".
Proof.
  induction r as [|c r IH]; [done|]. simpl. intros [Hc Hr]%andb_prop.
  by rewrite IH, Hc.
Qed.

Lemma lstrip_app_space (l s : string) :
  all isspace l = true -> lstrip (l +:+ s) = lstrip s.
Proof.
  induction l as [|c l IH]; [done|]. intros H. simpl in H.
  apply andb_prop in H as [Hc Hl].
  rewrite app_cons. simpl. rewrite Hc. by apply IH.
Qed.

Lemma rstrip_app_space (s r : string) :
  all isspace r = true -> rstrip (s +:+ r) = rstrip s.
Proof.
  intros Hr. induction s as [|c s IH].
  - by apply rstrip_all_space.
  - rewrite app_cons. simpl. by rewrite IH.
Qed.

Lemma strip_app_space (l s r : string) :
  all isspace l = true -> all isspace r = true ->
  strip (l +:+ s +:+ r) = strip s.
Proof.
  intros Hl Hr. unfold strip. rewrite lstrip_app_space by done.
  clear l Hl. induction s as [|c s IH].
  - change ("" +:+ r) with r. by rewrite (lstrip_all_space r).
  - rewrite app_cons. simpl. destruct (isspace c); [exact IH|].
    by rewrite <- app_cons, rstrip_app_space.
Qed.

Lemma last_is_app (f : ascii -> bool) (p e : string) :
  e <> "" -> last_is f (p +:+ e) = last_is f e.
Proof.
  intros He. induction p as [|c p IH]; [done|].
  rewrite app_cons. simpl. rewrite IH.
  destruct (p +:+ e) eqn:E; [|done].
  destruct p; [|done]. by destruct e.
Qed.

End Trimming.

(** X13.  Whitespace around the review text plays no part: a text and the
    same text with more whitespace before and after it get the same verdict
    and the same explanation, or the same error, and [_push_review] does
    the same with both. *)
Theorem verdict_ignores_surrounding_whitespace (l s r : string) :
  PyStr.all PyStr.isspace l = true ->
  PyStr.all PyStr.isspace r = true ->
  parse_verdict (l +:+ s +:+ r) = parse_verdict s
  /\ forall w pr_link, _push_review w (l +:+ s +:+ r) pr_link = _push_review w s pr_link.
Proof.
  intros Hl Hr.
  assert (parse_verdict (l +:+ s +:+ r) = parse_verdict s) as E.
  { unfold parse_verdict. by rewrite strip_app_space. }
  split; [exact E|]. intros w pr_link. unfold _push_review. by rewrite E.
Qed.

Lemma verdict_ignores_surrounding_whitespace_witness :
  parse_verdict (nl +:+ "  " +:+ "Request changes: add tests" +:+ " " +:+ nl)
  = Return (false, ": add tests").
Proof.
  rewrite <- (app_assoc' nl "  ").
  rewrite (proj1 (verdict_ignores_surrounding_whitespace (nl +:+ "  ")
                    "Request changes: add tests" (" " +:+ nl) eq_refl eq_refl)).
  reflexivity.
Defined.

(** X14.  The explanation never ends in whitespace, since it is cut from
    the trimmed text; nothing is trimmed where it begins, so that it keeps
    the whitespace or the punctuation that follows the verdict word. *)
Theorem explanation_has_no_trailing_whitespace
    (s : string) (accepted : bool) (explanation : string) :
  parse_verdict s = Return (accepted, explanation) ->
  PyStr.last_is PyStr.isspace explanation = false
  /\ (explanation <> "" -> exists p, PyStr.strip s = p +:+ explanation
                                     /\ PyStr.len p = if accepted then 10%nat else 15%nat).
Proof.
  intros H. destruct (parse_verdict_inv _ _ _ H) as (p & Hs & Hp).
  destruct (strip_spec s) as (l & r & _ & _ & _ & _ & Hlast).
  split.
  - destruct (decide (explanation = "")) as [->|Hne]; [done|].
    by rewrite <- (last_is_app _ p explanation), <- Hs.
  - intros _. exists p. split; [done|].
    rewrite <- lower_len, Hp. by destruct accepted.
Qed.

Lemma explanation_has_no_trailing_whitespace_witness :
  parse_verdict "Acceptable  but late  " = Return (true, "  but late")
  /\ PyStr.last_is PyStr.isspace "  but late" = false.
Proof.
  assert (parse_verdict "Acceptable  but late  " = Return (true, "  but late")) as H
    by reflexivity.
  split; [exact H|].
  exact (proj1 (explanation_has_no_trailing_whitespace _ _ _ H)).
Defined.

(** ** The body posted *)

Section Printable.
Import PyStr.

Lemma json_escape_char_printable (c : ascii) :
  all printable (json_escape_char c) = true.
Proof. destruct c as [[] [] [] [] [] [] [] []]; by vm_compute. Qed.

Lemma json_escape_printable (s : string) : all printable (json_escape s) = true.
Proof.
  induction s as [|c s IH]; [done|]. simpl.
  by rewrite all_app, json_escape_char_printable, IH.
Qed.

Lemma json_str_printable (s : string) : all printable (json_str s) = true.
Proof.
  unfold json_str. by rewrite !all_app, json_escape_printable.
Qed.

Lemma concat_printable (sep : string) (l : list string) :
  all printable sep = true ->
  (forall x, In x l -> all printable x = true) ->
  all printable (String.concat sep l) = true.
Proof.
  intros Hsep. induction l as [|x l IH]; intros H; [done|].
  simpl. destruct l as [|y l]; [apply H; by left|].
  change (x ++ sep ++ String.concat sep (y :: l))%string
    with (x +:+ sep +:+ String.concat sep (y :: l)).
  rewrite !all_app, Hsep, (H x) by (by left). simpl.
  apply IH. intros z Hz. apply H. by right.
Qed.

Lemma json_dumps_printable (d : list (string * string)) :
  all printable (json_dumps d) = true.
Proof.
  unfold json_dumps. rewrite !all_app. simpl. rewrite andb_true_r.
  apply concat_printable; [done|].
  intros x (kv & <- & _)%in_map_iff.
  by rewrite !all_app, !json_str_printable.
Qed.

End Printable.

(** X15.  Whatever the model wrote, the body of a review posted is
    printable ASCII: every character of the JSON text lies between the space
    and the tilde, quotes, backslashes, control characters and characters
    beyond ASCII inside the explanation being escaped. *)
Theorem posted_body_is_printable_ascii
    (w : world) (review pr_link : string) (req : post_request) :
  In (HttpPost req) (trace (_push_review w review pr_link)) ->
  PyStr.all printable (post_data req) = true.
Proof.
  rewrite push_review_unfold.
  destruct (extract_github_info pr_link) as [[info|]|x];
    destruct (parse_verdict review) as [[accepted tail]|x']; try (intros []).
  cbv zeta. intros H.
  assert (req = review_post w accepted tail info) as ->.
  { destruct (requests_post w (review_post w accepted tail info)) as [resp|x];
      [destruct (decide (status_code resp = 200))|];
      destruct H as [H|[]]; injection H as <-; reflexivity. }
  apply json_dumps_printable.
Qed.

Lemma posted_body_is_printable_ascii_witness :
  let w := stub_world diff_ok (always (Return (ok_response "Acceptable"))) in
  let review := "Acceptable: see " +:+ dq +:+ "notes" +:+ dq +:+ nl +:+ "thanks" in
  exists req,
    In (HttpPost req) (trace (_push_review w review "https://github.com/foo/bar/pull/1"))
    /\ PyStr.all printable (post_data req) = true
    /\ PyStr.all printable review = false.
Proof.
  intros w review.
  assert (exists req, In (HttpPost req)
            (trace (_push_review w review "https://github.com/foo/bar/pull/1")))
    as [req Hin].
  { eexists. left. reflexivity. }
  exists req. split; [exact Hin|]. split; [|reflexivity].
  exact (posted_body_is_printable_ascii w review "https://github.com/foo/bar/pull/1" req Hin).
Defined.

(** ** From the link to the address of the review *)

Section Numbers.
Import PyStr.





End Numbers.



(** ** The host of the link *)

(** X17.  The host of the link is not compared letter by letter: the dot of
    [github.com] in the pattern stands for any character but a newline.  A
    link with another character at that place gives the same reference as
    the link with the dot, and only a newline there makes the link
    unrecognised. *)
Theorem host_dot_stands_for_any_character (c : ascii) (o r d rest : string) :
  segment o -> segment r -> digits d ->
  Z.of_nat (PyStr.len d) <= int_max_str_digits ->
  PyStr.head_is is_digit rest = false ->
  extract_github_info
    ("https://github" +:+ String c
       ("com/" +:+ o +:+ "/" +:+ r +:+ "/pull/" +:+ d +:+ rest))
  = if not_newline c
    then Return (Some {| owner := o; repo := r; pull_id := int_of_digits d |})
    else Return None.
Proof.
  intros Ho Hr Hd Hlen Hrest. unfold extract_github_info.
  destruct (not_newline c) eqn:Hc.
  - rewrite re_match_pr_exact by done. unfold py_int.
    by rewrite decide_False by lia.
  - unfold re_match_pr. rewrite expect_app. cbn [mbind option_bind dot].
    by rewrite Hc.
Qed.

Lemma host_dot_stands_for_any_character_witness :
  extract_github_info "https://githubXcom/foo/bar/pull/116"
  = Return (Some {| owner := "foo"; repo := "bar"; pull_id := 116 |})
  /\ extract_github_info ("https://github" +:+ nl +:+ "com/foo/bar/pull/116")
     = Return None.
Proof.
  assert (segment "foo") as Ho by (split; [discriminate|reflexivity]).
  assert (segment "bar") as Hr by (split; [discriminate|reflexivity]).
  assert (digits "116") as Hd by (split; [discriminate|reflexivity]).
  assert (Z.of_nat (PyStr.len "116") <= int_max_str_digits) as Hl
    by (vm_compute; discriminate).
  split.
  - exact (host_dot_stands_for_any_character "X" "foo" "bar" "116" "" Ho Hr Hd Hl eq_refl).
  - exact (host_dot_stands_for_any_character "010" "foo" "bar" "116" "" Ho Hr Hd Hl eq_refl).
Defined.
